(** * ESG impact navigator: the portfolio-construction core

  A shallow embedding of
    - [views/investment_portfolio_page.py]: [get_portfolio_recommendation],
      [enrich_companies_data], [get_accepted_controversies_count],
      [get_preference_score], [map_risk_level], the rows computed by
      [plot_company_proportions_pie_chart], and the scoring loop and sort of
      [investment_portfolio_page];
    - [api/yahoo_finance_repository.py]: [_parse_response], [get_esg_score],
      [get_sector], [get_controversies], [get_e_score], [get_s_score],
      [get_g_score], and the reading of the screener's answer in
      [get_investment_universe];
    - [api/newton_analytics_engine.py]: [get_portfolio_data].

  Python dictionaries are finite maps with string keys, a raised exception is
  the [Raise] outcome of the [res] type, and the two places where the code
  talks to the outside world (the yfinance ticker lookup and the Newton
  analytics request) are functions given as section variables.  Numbers are
  exact rationals ([Qc]): the core only compares them, passes them through,
  subtracts them from 40 or adds three products. *)

From Stdlib Require Import QArith Qcanon Qcabs.
From stdpp Require Import gmap strings list numbers pretty sorting.

(** ** Python values, exceptions and outcomes *)

Module Py.

(** The exceptions the modelled functions can raise. *)
Inductive exn : Type :=
  | KeyError (key : string)
  | IndexError
  | TypeError
  | AttributeError
  | ValueError (msg : string)
  | HTTPError.

(** The outcome of evaluating a Python expression. *)
Inductive res (A : Type) : Type :=
  | Ok (a : A)
  | Raise (e : exn).
Global Arguments Ok {A} a.
Global Arguments Raise {A} e.

Definition bind {A B} (m : res A) (k : A → res B) : res B :=
  match m with
  | Ok a => k a
  | Raise e => Raise e
  end.

(** The values stored in the dictionaries: [None], strings and numbers. *)
Inductive value : Type :=
  | VNone
  | VStr (s : string)
  | VNum (q : Qc).

(** Python truthiness, as used by [x or default]. *)
Definition truthy (v : value) : bool :=
  match v with
  | VNone => false
  | VStr s => negb (String.eqb s "")
  | VNum q => negb (Qeq_bool q 0)
  end.

(** [d[k]] on a dictionary: [KeyError] when the key is missing. *)
Definition getitem {V} (d : gmap string V) (k : string) : res V :=
  match d !! k with
  | Some v => Ok v
  | None => Raise (KeyError k)
  end.

(** [a * b] and [a - b] and [a + b] on the numeric values.  Every
    combination with [None] is a [TypeError]; a string operand either is a
    [TypeError] at once or yields a string that the enclosing numeric
    [sum] / subtraction rejects with a [TypeError], so it is one here. *)
Definition num_op (f : Qc → Qc → Qc) (a b : value) : res value :=
  match a, b with
  | VNum x, VNum y => Ok (VNum (f x y))
  | _, _ => Raise TypeError
  end.
Definition mul := num_op Qcmult.
Definition sub := num_op Qcminus.
Definition add := num_op Qcplus.

(** Comparisons of rationals as booleans. *)
Definition leb (x y : Qc) : bool := Qle_bool x y.
Definition ltb (x y : Qc) : bool := negb (Qle_bool y x).

(** [p[-1]] and [p[0]] on a list: [IndexError] on the empty list. *)
Definition index_last {A} (p : list A) : res A :=
  match last p with
  | Some x => Ok x
  | None => Raise IndexError
  end.
Definition index0 {A} (p : list A) : res A :=
  match p with
  | x :: _ => Ok x
  | [] => Raise IndexError
  end.

(** [l[a:b]] for bounds [0 <= a <= b]. *)
Definition slice {A} (a b : nat) (l : list A) : list A :=
  take (b - a) (drop a l).

(** The spec's error taxonomy has one kind for malformed caller input; the
    code signals it with Python's built-in [ValueError] (an explicit
    [raise]) or [KeyError] (an undefended dictionary lookup). *)
Definition InvalidInputError (e : exn) : Prop :=
  match e with
  | ValueError _ | KeyError _ => True
  | _ => False
  end.

End Py.
Import Py.

#[global] Instance value_eq_dec : EqDecision value.
Proof. solve_decision. Defined.

#[global] Instance res_ret : MRet res := @Ok.
#[global] Instance res_bind : MBind res := λ A B k m, bind m k.

Definition qc (n : Z) (d : positive) : Qc := Q2Qc (n # d).

(** ** ControversyPolicy *)

(** The result of [get_accepted_controversies_count]: [math.inf] or an int. *)
Inductive count : Type :=
  | Infinity
  | Finite (n : Z).

Definition get_accepted_controversies_count (controversy_threshold : Z) : res count :=
  match controversy_threshold with
  | 1%Z | 2%Z => Ok Infinity
  | 3%Z => Ok (Finite 3)
  | 4%Z => Ok (Finite 2)
  | 5%Z => Ok (Finite 1)
  | _ => Raise (ValueError ("Unexpected value " +:+ pretty controversy_threshold
                            +:+ " for calculating accepted controversies count"))
  end.

(** ** PreferenceScorer *)

Section PreferenceScorer.
(** The keys of [data/survey_constants.py], which is not part of the
    sources at hand. *)
Variables USER_E_WEIGHT USER_S_WEIGHT USER_G_WEIGHT : string.

(** [sum(xs)]: the left fold of [+] from the integer 0. *)
Definition py_sum (xs : list value) : res value :=
  foldl (λ acc x, a ← acc; add a x) (Ok (VNum 0%Qc)) xs.

Definition get_preference_score
    (company survey_answers : gmap string value) : res value :=
  w_e ← getitem survey_answers USER_E_WEIGHT;
  w_s ← getitem survey_answers USER_S_WEIGHT;
  w_g ← getitem survey_answers USER_G_WEIGHT;
  e ← getitem company "e_score";
  s ← getitem company "s_score";
  g ← getitem company "g_score";
  x0 ← mul w_e e;
  x1 ← mul w_s s;
  x2 ← mul w_g g;
  py_sum [x0; x1; x2].

End PreferenceScorer.

(** ** The Yahoo Finance repository *)

(** A [sustainability] data frame: row label to the value of its [esgScores]
    column.  The empty map is the empty frame. *)
Abbreviation DataFrame := (gmap string value).

(** What the code reads of a [yf.Ticker]: [sustainability] (which the
    library may leave [None]) and the [info] dictionary. *)
Record Ticker : Type := mkTicker {
  sustainability : option DataFrame;
  info : gmap string value
}.

(** A company record: a Python dict with string keys. *)
Abbreviation Company := (gmap string value).

(** The repository's [self.cache]. *)
Abbreviation Cache := (gmap string Ticker).

(** Methods of the repository read and update [self.cache] and may raise. *)
Definition Repo (A : Type) : Type := Cache → res A * Cache.

Definition repo_ret {A} (a : A) : Repo A := λ cache, (Ok a, cache).
Definition repo_raise {A} (e : exn) : Repo A := λ cache, (Raise e, cache).
Definition repo_lift {A} (r : res A) : Repo A := λ cache, (r, cache).
Definition repo_bind {A B} (m : Repo A) (k : A → Repo B) : Repo B :=
  λ cache,
    match m cache with
    | (Ok a, cache') => k a cache'
    | (Raise e, cache') => (Raise e, cache')
    end.

#[global] Instance Repo_ret : MRet Repo := @repo_ret.
#[global] Instance Repo_bind : MBind Repo := λ A B k m, repo_bind m k.

Module YahooFinanceRepository.

Definition MAX_RISK_SCORE : Qc := qc 40 1.

(** [response.empty] *)
Definition df_empty (df : DataFrame) : bool := bool_decide (size df = 0%nat).

Definition _parse_response
    (response : option DataFrame) (field : string) (default_value : value) : res value :=
  match response with
  | None => Ok default_value
  | Some df =>
      if df_empty df then Ok default_value
      else
        x ← getitem df field;
        Ok (if truthy x then x else default_value)
  end.

Section Methods.
(** [yf.Ticker(ticker, session=session)] for a string symbol. *)
Variable yf_Ticker : string → Ticker.

(** A symbol that is not a string has no [upper()]: the constructor raises. *)
Definition new_Ticker (ticker : value) : res Ticker :=
  match ticker with
  | VStr s => Ok (yf_Ticker s)
  | _ => Raise AttributeError
  end.

(** [ticker in self.cache]: only string keys are ever stored. *)
Definition cached (cache : Cache) (ticker : value) : option Ticker :=
  match ticker with
  | VStr s => cache !! s
  | _ => None
  end.

(** [self.cache[ticker] = stock], reached with a string symbol only. *)
Definition store (ticker : value) (stock : Ticker) (cache : Cache) : Cache :=
  match ticker with
  | VStr s => <[s := stock]> cache
  | _ => cache
  end.

(** A ticker object is always truthy, so the [if not stock] branch of the
    three getters below is dead; [stock.sustainability.empty] raises when the
    attribute is [None]. *)
Definition get_esg_score (ticker : value) : Repo (option DataFrame) :=
  λ cache,
    match cached cache ticker with
    | Some stock => (Ok (sustainability stock), cache)
    | None =>
        match new_Ticker ticker with
        | Raise e => (Raise e, cache)
        | Ok stock =>
            match sustainability stock with
            | None => (Raise AttributeError, cache)
            | Some df =>
                if df_empty df then (Ok None, cache)
                else (Ok (Some df), store ticker stock cache)
            end
        end
    end.

(** [info.get("sector", None)] *)
Definition info_sector (stock : Ticker) : value :=
  default VNone (info stock !! "sector").

Definition get_sector (ticker : value) : Repo value :=
  λ cache,
    match cached cache ticker with
    | Some stock => (Ok (info_sector stock), cache)
    | None =>
        match new_Ticker ticker with
        | Raise e => (Raise e, cache)
        | Ok stock =>
            match sustainability stock with
            | None => (Raise AttributeError, cache)
            | Some df =>
                if df_empty df then (Ok VNone, cache)
                else (Ok (info_sector stock), store ticker stock cache)
            end
        end
    end.

Definition get_controversies (ticker : value) : Repo value :=
  response ← get_esg_score ticker;
  repo_lift (_parse_response response "highestControversy" (VNum (qc 10 1))).

Definition risk_to_score (ticker : value) (field : string) : Repo value :=
  response ← get_esg_score ticker;
  repo_lift (x ← _parse_response response field (VNum MAX_RISK_SCORE);
             sub (VNum MAX_RISK_SCORE) x).

Definition get_e_score (ticker : value) : Repo value :=
  risk_to_score ticker "environmentScore".

Definition get_s_score (ticker : value) : Repo value :=
  risk_to_score ticker "socialScore".

Definition get_g_score (ticker : value) : Repo value :=
  risk_to_score ticker "governanceScore".

End Methods.
End YahooFinanceRepository.

(** ** CompanyEnricher *)

Section CompanyEnricher.
Variable yf_Ticker : string → Ticker.

Import YahooFinanceRepository.

(** The dictionary literal passed to [c.update]: its five values are
    evaluated in order, each re-reading [c["ticker"]]; [c] is updated only
    when all five lookups returned. *)
Definition enrich_company (c : Company) : Repo Company :=
  t ← repo_lift (getitem c "ticker");
  e_score ← get_e_score yf_Ticker t;
  t ← repo_lift (getitem c "ticker");
  s_score ← get_s_score yf_Ticker t;
  t ← repo_lift (getitem c "ticker");
  g_score ← get_g_score yf_Ticker t;
  t ← repo_lift (getitem c "ticker");
  controversies ← get_controversies yf_Ticker t;
  t ← repo_lift (getitem c "ticker");
  sector ← get_sector yf_Ticker t;
  mret (<["e_score" := e_score]>
        (<["s_score" := s_score]>
         (<["g_score" := g_score]>
          (<["controversies" := controversies]>
           (<["sector" := sector]> c))))).

(** The [for] loop of [enrich_companies_data].  The dictionaries are updated
    in place, so the list the caller holds changes as the loop advances: the
    first component is that list when the loop stops, the second the
    exception that stopped it, if any. *)
Fixpoint enrich_loop (cs : list Company) (cache : Cache)
    : list Company * option exn * Cache :=
  match cs with
  | [] => ([], None, cache)
  | c :: rest =>
      match enrich_company c cache with
      | (Ok c', cache') =>
          let '(rest', err, cache'') := enrich_loop rest cache' in
          (c' :: rest', err, cache'')
      | (Raise e, cache') => (c :: rest, Some e, cache')
      end
  end.

(** What a call of [enrich_companies_data] leaves behind. *)
Record enriched : Type := mkEnriched {
  returned : res (option (list Company));   (* [Ok None] is Python's [None] *)
  initial_companies_data : list Company;     (* the caller's list afterwards *)
  printed : list exn;                        (* what [print(e)] wrote *)
  cache_after : Cache
}.

(** [except Exception as e: print(e)] catches every exception of the model
    and falls off the end of the function, which returns [None]. *)
Definition enrich_companies_data (initial : list Company) (cache : Cache) : enriched :=
  let '(cs, err, cache') := enrich_loop initial cache in
  match err with
  | None => mkEnriched (Ok (Some cs)) cs [] cache'
  | Some e => mkEnriched (Ok None) cs [e] cache'
  end.

End CompanyEnricher.

(** ** PortfolioSelector *)

(** A candidate record of the analytics service:
    [[expected_return, weight_1, ..., weight_N, risk]]. *)
Abbreviation Portfolio := (list Qc).

(** The dictionary [get_portfolio_recommendation] returns on success. *)
Record RecommendedPortfolio : Type := mkRecommendedPortfolio {
  tickers : list value;
  proportions : list Qc;
  risk : Qc;
  return_ : Qc;
  companies : list Company
}.

(** [[p for p in portfolios if p[-1] <= risk_tolerance]] *)
Fixpoint risk_filter (risk_tolerance : Qc) (portfolios : list Portfolio)
    : res (list Portfolio) :=
  match portfolios with
  | [] => Ok []
  | p :: rest =>
      r ← index_last p;
      kept ← risk_filter risk_tolerance rest;
      Ok (if leb r risk_tolerance then p :: kept else kept)
  end.

(** [sorted(..., reverse=True)] is stable: among equal keys the original
    order is kept.  [insert_desc] puts an element in front of the first one
    whose key is not greater than its own. *)
Fixpoint insert_desc {A} (k : Qc) (x : A) (l : list (Qc * A)) : list (Qc * A) :=
  match l with
  | [] => [(k, x)]
  | (k', y) :: l' =>
      if leb k' k then (k, x) :: (k', y) :: l'
      else (k', y) :: insert_desc k x l'
  end.

Definition sort_desc {A} (l : list (Qc * A)) : list (Qc * A) :=
  foldr (λ kx acc, insert_desc kx.1 kx.2 acc) [] l.

(** [sorted(portfolios, key=lambda c: c[0], reverse=True)]: the keys are
    computed first, then the decorated list is sorted. *)
Definition sorted_by_return (portfolios : list Portfolio) : res (list Portfolio) :=
  keys ← mapM index0 portfolios;
  Ok ((sort_desc (zip keys portfolios)).*2).

Section PortfolioSelector.
(** [analysis_engine.get_portfolio_data(tickers)]: the decoded JSON object of
    the Newton analytics answer, or the exception of a failed request. *)
Variable get_portfolio_data : list value → res (gmap string (list Portfolio)).

(** [[c["ticker"] for c in companies[i:i + portfolio_size]]] *)
Definition window_tickers (companies : list Company) (i portfolio_size : nat)
    : res (list value) :=
  mapM (λ c : Company, getitem c "ticker") (slice i (i + portfolio_size) companies).

(** One iteration of the loop.  The first component lists the ticker
    sequences submitted to the analytics service during the iteration; the
    second is [Ok (Some r)] when the iteration returns [r], [Ok None] when it
    falls through to the next one, and [Raise e] when it raises. *)
Definition try_window (companies : list Company) (portfolio_size : nat)
    (risk_tolerance : Qc) (i : nat)
    : list (list value) * res (option RecommendedPortfolio) :=
  match window_tickers companies i portfolio_size with
  | Raise e => ([], Raise e)
  | Ok tickers =>
      ([tickers],
       result ← get_portfolio_data tickers;
       portfolios ← getitem result "data";
       portfolios ← risk_filter risk_tolerance portfolios;
       sorted_portfolio ← sorted_by_return portfolios;
       match sorted_portfolio with
       | [] => Ok None
       | target_portfolio :: _ =>
           r ← index0 target_portfolio;
           if ltb 0 r then
             risk ← index_last target_portfolio;
             Ok (Some (mkRecommendedPortfolio
                         tickers
                         (slice 1 (portfolio_size + 1) target_portfolio)
                         risk r
                         (slice i (i + portfolio_size) companies)))
           else Ok None
       end)
  end.

(** The loop over the offsets, with the requests made so far. *)
Fixpoint search (companies : list Company) (portfolio_size : nat)
    (risk_tolerance : Qc) (offsets : list nat)
    : list (list value) * res (option RecommendedPortfolio) :=
  match offsets with
  | [] => ([], Ok None)
  | i :: rest =>
      match try_window companies portfolio_size risk_tolerance i with
      | (log, Ok None) =>
          let '(log', r) := search companies portfolio_size risk_tolerance rest in
          (log ++ log', r)
      | (log, r) => (log, r)
      end
  end.

(** [range(n)] for a Python int [n]: empty when [n <= 0]. *)
Definition range (n : Z) : list nat := seq 0 (Z.to_nat n).

(** [get_portfolio_recommendation]: the requests made, in order, and the
    outcome; [Ok None] is the [return None] after the loop. *)
Definition get_portfolio_recommendation (companies : list Company)
    (portfolio_size : nat) (risk_tolerance : Qc)
    : list (list value) * res (option RecommendedPortfolio) :=
  search companies portfolio_size risk_tolerance
    (range (Z.of_nat (length companies) - Z.of_nat portfolio_size + 1)%Z).

End PortfolioSelector.

(** ** RiskMapper *)

(** [str.lower()] on the letters A to Z.  Bytes outside ASCII are left as
    they are; no character outside ASCII lower-cases to a letter of the
    three risk names, so membership in [risk_mapping] is not affected. *)
Definition lower_ascii (c : Ascii.ascii) : Ascii.ascii :=
  let n := Ascii.nat_of_ascii c in
  if (65 <=? n)%nat && (n <=? 90)%nat then Ascii.ascii_of_nat (n + 32) else c.

Fixpoint lower (s : string) : string :=
  match s with
  | EmptyString => EmptyString
  | String c s' => String (lower_ascii c) (lower s')
  end.

(** The dictionary of [map_risk_level], in insertion order. *)
Definition risk_mapping : list (string * Qc) :=
  [("low", qc 1 10); ("moderate", qc 15 100); ("high", qc 2 10)].

(** [d[k]] and [k in d] on a dictionary kept as an association list. *)
Fixpoint assoc {V} (k : string) (d : list (string * V)) : option V :=
  match d with
  | [] => None
  | (k', v) :: d' => if String.eqb k k' then Some v else assoc k d'
  end.

(** [list(risk_mapping.keys())] as the f-string prints it. *)
Definition repr_keys {V} (d : list (string * V)) : string :=
  "[" +:+ String.concat ", " ((λ kv, "'" +:+ kv.1 +:+ "'") <$> d) +:+ "]".

(** A value without [lower()] raises [AttributeError]. *)
Definition map_risk_level (risk_level : value) : res Qc :=
  match risk_level with
  | VStr s =>
      match assoc (lower s) risk_mapping with
      | Some q => Ok q
      | None =>
          Raise (ValueError ("Invalid risk level: '" +:+ s
                             +:+ "'. Must be one of " +:+ repr_keys risk_mapping
                             +:+ "."))
      end
  | _ => Raise AttributeError
  end.

(** ** The proportions pie chart *)

(** What [plot_company_proportions_pie_chart] computes before it hands the
    rows to the plotting library: the rows, an exception of the dictionary
    lookups, or the division by zero. *)
Inductive chart_outcome : Type :=
  | Rows (rows : list (value * Qc))
  | ChartRaise (e : exn)
  | ZeroDivisionError.

(** [sum([abs(v) for v in proportions])] *)
Definition total_sum (proportions : list Qc) : Qc :=
  foldl Qcplus 0%Qc (Qcabs <$> proportions).

(** The rows [zip(names, value)] of the chart.  The division is evaluated
    once per proportion, so an empty list divides nothing. *)
Definition pie_chart_rows (portfolio : RecommendedPortfolio) : chart_outcome :=
  match mapM (λ c : Company, getitem c "name") (companies portfolio) with
  | Raise e => ChartRaise e
  | Ok names =>
      let total := total_sum (proportions portfolio) in
      match proportions portfolio with
      | [] => Rows (zip names [])
      | _ :: _ =>
          if decide (total = 0%Qc) then ZeroDivisionError
          else Rows (zip names ((λ v, Qcabs v / total)%Qc <$> proportions portfolio))
      end
  end.

(** ** The Newton analytics engine *)

Module NewtonAnalyticsEngine.

Definition BASE_URL : string := "https://api.newtonanalytics.com/modern-portfolio/".

(** The query parameters of the request. *)
Record Params : Type := mkParams {
  param_tickers : string;
  param_interval : string;
  param_observations : Z
}.

(** What the code reads of the HTTP response: the status, for
    [raise_for_status], and the decoded body, which [json()] may fail to
    produce. *)
Record Response : Type := mkResponse {
  status_code : Z;
  json : res (gmap string (list Portfolio))
}.

(** [",".join(tickers)]: every item must be a string. *)
Definition join_tickers (tickers : list value) : res string :=
  strs ← mapM (λ t, match t with VStr s => Ok s | _ => Raise TypeError end) tickers;
  Ok (String.concat "," strs).

(** [response.raise_for_status()] *)
Definition raise_for_status (response : Response) : res unit :=
  if decide (400 ≤ status_code response < 600)%Z then Raise HTTPError else Ok ().

Section Engine.
(** [requests.get(url, params=params)] *)
Variable requests_get : string → Params → res Response.

Definition get_portfolio_data (tickers : list value)
    : res (gmap string (list Portfolio)) :=
  tickers_str ← join_tickers tickers;
  response ← requests_get BASE_URL (mkParams tickers_str "1mo" 12);
  _ ← raise_for_status response;
  json response.

End Engine.
End NewtonAnalyticsEngine.

(** ** The investment universe *)

Section InvestmentUniverse.
(** Building the screener query from the sectors and the controversy limit
    and reading [screener.response]: the decoded answer, or the exception of
    the library. *)
Variable screener_response
  : list string → count → res (gmap string (list (gmap string value))).

Definition get_investment_universe (sectors : list string)
    (highest_controversies_threshold : count) : res (list Company) :=
  r ← screener_response sectors highest_controversies_threshold;
  quotes ← getitem r "quotes";
  mapM (λ quote : gmap string value,
          symbol ← getitem quote "symbol";
          shortName ← getitem quote "shortName";
          Ok ({[ "ticker" := symbol; "name" := shortName ]} : Company))
       quotes.

End InvestmentUniverse.

(** ** Ranking on the portfolio page *)

(** [a < b] as [sorted] evaluates it on two keys: numbers with numbers,
    strings with strings, and a [TypeError] otherwise. *)
Definition py_lt (a b : value) : res bool :=
  match a, b with
  | VNum x, VNum y => Ok (ltb x y)
  | VStr s, VStr t => Ok (String.ltb s t)
  | _, _ => Raise TypeError
  end.

(** The stable descending sort on keys that are Python values: an element
    goes in front of the first one its key is not less than. *)
Fixpoint insert_by_key {A} (k : value) (x : A) (l : list (value * A))
    : res (list (value * A)) :=
  match l with
  | [] => Ok [(k, x)]
  | (k', y) :: l' =>
      lt ← py_lt k k';
      if lt : bool then rest ← insert_by_key k x l'; Ok ((k', y) :: rest)
      else Ok ((k, x) :: (k', y) :: l')
  end.

Fixpoint sort_by_key {A} (l : list (value * A)) : res (list (value * A)) :=
  match l with
  | [] => Ok []
  | (k, x) :: l' => sorted ← sort_by_key l'; insert_by_key k x sorted
  end.

Section Ranking.
Variables USER_E_WEIGHT USER_S_WEIGHT USER_G_WEIGHT : string.

(** The loop [for c in enriched_companies: c["score"] = ...] and the
    [sorted(..., key=lambda c: c["score"], reverse=True)] that follows it on
    the portfolio page.  [None] for [enriched_companies] is what
    [enrich_companies_data] returns after an exception; iterating over it is
    a [TypeError]. *)
Definition rank_companies (enriched_companies : option (list Company))
    (survey_answers : gmap string value) : res (list Company) :=
  match enriched_companies with
  | None => Raise TypeError
  | Some cs =>
      scored ← mapM (λ c : Company,
                       score ← get_preference_score USER_E_WEIGHT USER_S_WEIGHT
                                 USER_G_WEIGHT c survey_answers;
                       Ok (<["score" := score]> c)) cs;
      keys ← mapM (λ c : Company, getitem c "score") scored;
      sorted_companies ← sort_by_key (zip keys scored);
      Ok (sorted_companies.*2)
  end.

End Ranking.

(** ** Auxiliary notions used in the statements *)

(** The invariant of [self.cache]: a ticker is cached only after its
    [sustainability] frame was seen to be non-empty. *)
Definition cache_ok (cache : Cache) : Prop :=
  ∀ s stock, cache !! s = Some stock →
    ∃ df, sustainability stock = Some df ∧
          YahooFinanceRepository.df_empty df = false.

(** Is the outcome Python's [None]? *)
Definition is_None {A} (r : res (option A)) : bool :=
  match r with
  | Ok None => true
  | _ => false
  end.

(** The expected return and the risk of a candidate record. *)
Definition ret_of (p : Portfolio) : Qc := default 0%Qc (head p).
Definition risk_of (p : Portfolio) : Qc := default 0%Qc (last p).

(** The risk gate, with an inclusive boundary. *)
Definition within_risk (risk_tolerance : Qc) (p : Portfolio) : Prop :=
  (risk_of p ≤ risk_tolerance)%Qc.

#[global] Instance within_risk_dec risk_tolerance p :
  Decision (within_risk risk_tolerance p).
Proof.
  unfold within_risk.
  destruct (leb (risk_of p) risk_tolerance) eqn:H; [left|right].
  - by apply Qle_bool_iff.
  - intros Hle. apply Qle_bool_iff in Hle. unfold leb in H. congruence.
Defined.

(** A feasible candidate: within the risk ceiling, with positive return. *)
Definition feasible (risk_tolerance : Qc) (p : Portfolio) : Prop :=
  within_risk risk_tolerance p ∧ (0 < ret_of p)%Qc.

#[global] Instance feasible_dec risk_tolerance p :
  Decision (feasible risk_tolerance p).
Proof. unfold feasible. apply _. Defined.

(** [best] is the first candidate of [kept] with the greatest return:
    everything before it returns strictly less, nothing after it returns
    more. *)
Definition first_best (best : Portfolio) (kept : list Portfolio) : Prop :=
  ∃ pre post, kept = pre ++ best :: post ∧
    Forall (λ p, (ret_of p < ret_of best)%Qc) pre ∧
    Forall (λ p, (ret_of p ≤ ret_of best)%Qc) post.

(** The analytics service answers the window at offset [i]: the window has
    its tickers, the request returns, the answer has a ["data"] entry, and no
    record of it is empty. *)
Definition answers
    (get_portfolio_data : list value → res (gmap string (list Portfolio)))
    (companies : list Company) (portfolio_size i : nat)
    (tickers : list value) (portfolios : list Portfolio) : Prop :=
  window_tickers companies i portfolio_size = Ok tickers ∧
  ∃ result, get_portfolio_data tickers = Ok result ∧
            result !! "data" = Some portfolios ∧
            Forall (λ p, p ≠ []) portfolios.

(** The dictionary returned for the window at offset [i] when [best] is its
    chosen candidate. *)
Definition window_portfolio (companies : list Company) (portfolio_size i : nat)
    (tickers : list value) (best : Portfolio) : RecommendedPortfolio :=
  mkRecommendedPortfolio tickers (slice 1 (portfolio_size + 1) best)
    (risk_of best) (ret_of best) (slice i (i + portfolio_size) companies).

(** The order of a sorted decorated list: keys do not increase. *)
Definition by_return_desc {A} (kx ky : Qc * A) : Prop := (ky.1 ≤ kx.1)%Qc.

(** Has the ticker no comma in it? *)
Fixpoint comma_free (s : string) : bool :=
  match s with
  | EmptyString => true
  | String c s' => negb (Ascii.eqb c (Ascii.ascii_of_nat 44)) && comma_free s'
  end.

(** The score written in a company record, 0 when there is none. *)
Definition score_of (c : Company) : Qc :=
  match c !! "score" with
  | Some (VNum q) => q
  | _ => 0%Qc
  end.

(** A method of the repository keeps the invariant of the cache. *)
Definition preserves_cache_ok {A} (m : Repo A) : Prop :=
  ∀ cache, cache_ok cache → cache_ok (m cache).2.

(** The keys [enrich_companies_data] writes. *)
Definition enriched_keys : list string :=
  ["e_score"; "s_score"; "g_score"; "controversies"; "sector"].

(** ** Sample data *)

Module Sample.

(** A data source without ESG data for any ticker. *)
Definition no_esg_data (_ : string) : Ticker := mkTicker (Some ∅) ∅.

(** A data source whose every raw risk score is 0. *)
Definition zero_risk_frame : DataFrame :=
  {[ "environmentScore" := VNum 0%Qc; "socialScore" := VNum 0%Qc;
     "governanceScore" := VNum 0%Qc; "highestControversy" := VNum (qc 2 1) ]}.

Definition zero_risk (_ : string) : Ticker :=
  mkTicker (Some zero_risk_frame) {[ "sector" := VStr "Technology" ]}.

(** A data source that knows [GOOD] and leaves the frame of every other
    ticker unset. *)
Definition good_frame : DataFrame :=
  {[ "environmentScore" := VNum (qc 5 1); "socialScore" := VNum (qc 8 1);
     "governanceScore" := VNum (qc 6 1); "highestControversy" := VNum (qc 2 1) ]}.

Definition only_good (s : string) : Ticker :=
  if String.eqb s "GOOD"
  then mkTicker (Some good_frame) {[ "sector" := VStr "Technology" ]}
  else mkTicker None ∅.

Definition company (ticker : string) : Company :=
  {[ "ticker" := VStr ticker; "name" := VStr ticker ]}.

(** Four companies in ranking order and an analytics service that knows
    two of their windows of size 2: [A, B] has a loss-making candidate and a
    very risky one; [B, C] has four candidates, the second and third with the
    same return. *)
Definition ranked : list Company :=
  [company "A"; company "B"; company "C"; company "D"].

Definition candidates_AB : list Portfolio :=
  [ [qc (-1) 100; qc 1 2; qc 1 2; qc 1 10];
    [qc 3 10; qc 1 2; qc 1 2; qc 9 10] ].

Definition candidates_BC : list Portfolio :=
  [ [qc 5 100; qc 1 2; qc 1 2; qc 15 100];
    [qc 8 100; qc 1 4; qc 3 4; qc 15 100];
    [qc 8 100; qc 3 4; qc 1 4; qc 1 10];
    [qc 9 100; qc 1 2; qc 1 2; qc 16 100] ].

Definition engine (tickers : list value) : res (gmap string (list Portfolio)) :=
  if decide (tickers = [VStr "A"; VStr "B"]) then Ok {[ "data" := candidates_AB ]}
  else if decide (tickers = [VStr "B"; VStr "C"]) then Ok {[ "data" := candidates_BC ]}
  else Ok {[ "data" := [] ]}.

(** The tickers and the candidates of the window at each offset. *)
Definition window (i : nat) : list value :=
  match i with
  | 0 => [VStr "A"; VStr "B"]
  | 1 => [VStr "B"; VStr "C"]
  | _ => [VStr "C"; VStr "D"]
  end.

Definition candidates (i : nat) : list Portfolio :=
  match i with
  | 0 => candidates_AB
  | 1 => candidates_BC
  | _ => []
  end.

(** Variants of the sample service that answer [A, B] as before and, for
    every other window, fail, answer without a ["data"] entry, or answer with
    an empty record beside a feasible one. *)
Definition engine_down (tickers : list value) : res (gmap string (list Portfolio)) :=
  if decide (tickers = [VStr "A"; VStr "B"]) then Ok {[ "data" := candidates_AB ]}
  else Raise HTTPError.

Definition engine_no_data (tickers : list value) : res (gmap string (list Portfolio)) :=
  if decide (tickers = [VStr "A"; VStr "B"]) then Ok {[ "data" := candidates_AB ]}
  else Ok ∅.

Definition engine_empty_record (tickers : list value)
    : res (gmap string (list Portfolio)) :=
  if decide (tickers = [VStr "A"; VStr "B"]) then Ok {[ "data" := candidates_AB ]}
  else Ok {[ "data" := [[]; [qc 8 100; qc 1 2; qc 1 2; qc 1 10]] ]}.

(** The sample ranking with a third record that has no ticker. *)
Definition ranked_missing : list Company :=
  [company "A"; company "B"; {[ "name" := VStr "C" ]}; company "D"].

(** A data source whose companies have risk scores and no controversy. *)
Definition no_controversy_frame : DataFrame :=
  {[ "environmentScore" := VNum (qc 5 1); "socialScore" := VNum (qc 8 1);
     "governanceScore" := VNum (qc 6 1); "highestControversy" := VNum 0%Qc ]}.

Definition no_controversy (_ : string) : Ticker :=
  mkTicker (Some no_controversy_frame) ∅.

(** Survey answers with the three weights. *)
Definition weights : gmap string value :=
  {[ "e_weight" := VNum (qc 3 1); "s_weight" := VNum (qc 1 1);
     "g_weight" := VNum (qc 5 1) ]}.

(** A returned portfolio and one whose proportions are all 0. *)
Definition portfolio : RecommendedPortfolio :=
  mkRecommendedPortfolio [VStr "B"; VStr "C"] [qc (-1) 4; qc 3 4] (qc 15 100)
    (qc 8 100) [company "B"; company "C"].

Definition flat_portfolio : RecommendedPortfolio :=
  mkRecommendedPortfolio [VStr "B"; VStr "C"] [0%Qc; 0%Qc] (qc 15 100)
    (qc 8 100) [company "B"; company "C"].

(** A web server that answers the request for [A,B] with the candidates of
    that window and status 200, and everything else with status 503. *)
Definition web (url : string) (params : NewtonAnalyticsEngine.Params)
    : res NewtonAnalyticsEngine.Response :=
  if decide (NewtonAnalyticsEngine.param_tickers params = "A,B")
  then Ok (NewtonAnalyticsEngine.mkResponse 200 (Ok {[ "data" := candidates_AB ]}))
  else Ok (NewtonAnalyticsEngine.mkResponse 503 (Raise (ValueError "no JSON"))).

(** A screener answer with two quotes. *)
Definition screener (_ : list string) (_ : count)
    : res (gmap string (list (gmap string value))) :=
  Ok {[ "quotes" :=
          [ {[ "symbol" := VStr "GOOD"; "shortName" := VStr "Good Inc." ]};
            {[ "symbol" := VStr "FINE"; "shortName" := VStr "Fine Corp." ]} ] ]}.

(** A data source that knows every ticker, [FINE] with lower risks. *)
Definition fine_frame : DataFrame :=
  {[ "environmentScore" := VNum (qc 2 1); "socialScore" := VNum (qc 3 1);
     "governanceScore" := VNum (qc 1 1); "highestControversy" := VNum (qc 1 1) ]}.

Definition good_and_fine (s : string) : Ticker :=
  if String.eqb s "FINE"
  then mkTicker (Some fine_frame) {[ "sector" := VStr "Energy" ]}
  else mkTicker (Some good_frame) {[ "sector" := VStr "Technology" ]}.

End Sample.

(** * Properties *)

(** ** Basic facts about outcomes and comparisons *)

(** Reduce a bind whose first computation is known. *)
Ltac res_step := cbn [mbind res_bind bind].

(** Settle a closed equation by evaluating both sides. *)
Ltac by_vm :=
  lazymatch goal with |- @eq ?T ?l ?r => vm_cast_no_check (@eq_refl T r) end.

(** Settle a decidable closed proposition by evaluating its decision. *)
Ltac by_evaluation := apply (bool_decide_unpack _); vm_compute; exact I.

Lemma leb_le (x y : Qc) : leb x y = true ↔ (x ≤ y)%Qc.
Proof. unfold leb, Qcle. apply Qle_bool_iff. Qed.

Lemma leb_gt (x y : Qc) : leb x y = false ↔ (y < x)%Qc.
Proof.
  rewrite Qclt_nge, <- leb_le. destruct (leb x y); split; congruence.
Qed.

Lemma ltb_lt (x y : Qc) : ltb x y = true ↔ (x < y)%Qc.
Proof. unfold ltb. rewrite negb_true_iff. apply leb_gt. Qed.

Lemma ltb_ge (x y : Qc) : ltb x y = false ↔ (y ≤ x)%Qc.
Proof. unfold ltb. rewrite negb_false_iff. apply leb_le. Qed.

Lemma truthy_zero : truthy (VNum 0%Qc) = false.
Proof. reflexivity. Qed.

Lemma getitem_Some {V} (d : gmap string V) k v :
  d !! k = Some v → getitem d k = Ok v.
Proof. unfold getitem. by intros ->. Qed.

Lemma getitem_None {V} (d : gmap string V) k :
  d !! k = None → getitem d k = Raise (KeyError k).
Proof. unfold getitem. by intros ->. Qed.

(** ** ControversyPolicy *)

(** C8: [get_accepted_controversies_count] answers infinity for 1 and for 2,
    3 for 3, 2 for 4 and 1 for 5; every other threshold raises the
    [ValueError] that reports an unexpected value, an invalid-input error. *)
Theorem accepted_controversy_count_table :
  get_accepted_controversies_count 1 = Ok Infinity ∧
  get_accepted_controversies_count 2 = Ok Infinity ∧
  get_accepted_controversies_count 3 = Ok (Finite 3) ∧
  get_accepted_controversies_count 4 = Ok (Finite 2) ∧
  get_accepted_controversies_count 5 = Ok (Finite 1) ∧
  ∀ t : Z, ¬ (1 ≤ t ≤ 5)%Z →
    ∃ msg, get_accepted_controversies_count t = Raise (ValueError msg) ∧
           InvalidInputError (ValueError msg).
Proof.
  repeat split; intros t Ht.
  destruct t as [|p|p]; [by eexists | | by eexists].
  destruct p as [[[]|[]|]|[[]|[]|]|]; try lia; by eexists.
Qed.

Lemma accepted_controversy_count_table_witness :
  ∃ msg, get_accepted_controversies_count 7 = Raise (ValueError msg) ∧
         InvalidInputError (ValueError msg).
Proof.
  apply (proj2 (proj2 (proj2 (proj2 (proj2 accepted_controversy_count_table))))).
  lia.
Defined.

(** ** PreferenceScorer *)

Section PreferenceScorerFacts.
Variables USER_E_WEIGHT USER_S_WEIGHT USER_G_WEIGHT : string.

Lemma py_sum_three (a b c : Qc) :
  py_sum [VNum a; VNum b; VNum c] = Ok (VNum (a + b + c)%Qc).
Proof.
  unfold py_sum. cbn. by rewrite Qcplus_0_l.
Qed.

(** C9: when the company carries numeric [e_score], [s_score], [g_score] and
    the survey answers carry the three numeric weights, the score is exactly
    [w_e*e_score + w_s*s_score + w_g*g_score]; when one of the three
    sub-scores is missing from the company the call raises a [KeyError], an
    invalid-input error, whatever the other arguments are. *)
Theorem preference_score_weighted_sum
    (company survey_answers : gmap string value) :
  (∀ w_e w_s w_g e s g : Qc,
     survey_answers !! USER_E_WEIGHT = Some (VNum w_e) →
     survey_answers !! USER_S_WEIGHT = Some (VNum w_s) →
     survey_answers !! USER_G_WEIGHT = Some (VNum w_g) →
     company !! "e_score" = Some (VNum e) →
     company !! "s_score" = Some (VNum s) →
     company !! "g_score" = Some (VNum g) →
     get_preference_score USER_E_WEIGHT USER_S_WEIGHT USER_G_WEIGHT
       company survey_answers
     = Ok (VNum (w_e * e + w_s * s + w_g * g)%Qc)) ∧
  (company !! "e_score" = None ∨ company !! "s_score" = None ∨
   company !! "g_score" = None →
   ∃ key,
     get_preference_score USER_E_WEIGHT USER_S_WEIGHT USER_G_WEIGHT
       company survey_answers
     = Raise (KeyError key) ∧ InvalidInputError (KeyError key)).
Proof.
  split.
  - intros w_e w_s w_g e s g Hwe Hws Hwg He Hs Hg.
    unfold get_preference_score.
    rewrite (getitem_Some _ _ _ Hwe), (getitem_Some _ _ _ Hws),
      (getitem_Some _ _ _ Hwg), (getitem_Some _ _ _ He),
      (getitem_Some _ _ _ Hs), (getitem_Some _ _ _ Hg).
    cbn. apply py_sum_three.
  - intros Hmiss. unfold get_preference_score, getitem.
    destruct (survey_answers !! USER_E_WEIGHT); [|by eexists].
    destruct (survey_answers !! USER_S_WEIGHT); [|by eexists].
    destruct (survey_answers !! USER_G_WEIGHT); [|by eexists].
    cbn.
    destruct (company !! "e_score"); [|by eexists].
    destruct (company !! "s_score"); [|by eexists].
    destruct (company !! "g_score"); [|by eexists].
    destruct Hmiss as [?|[?|?]]; discriminate.
Qed.

End PreferenceScorerFacts.

(** [score(company, [1,1,1])] with [e = s = g = 10] is 30, and a company
    without [g_score] is rejected. *)
Lemma preference_score_weighted_sum_witness :
  get_preference_score "e_weight" "s_weight" "g_weight"
    {[ "e_score" := VNum (qc 10 1); "s_score" := VNum (qc 10 1);
       "g_score" := VNum (qc 10 1) ]}
    {[ "e_weight" := VNum (qc 1 1); "s_weight" := VNum (qc 1 1);
       "g_weight" := VNum (qc 1 1) ]}
  = Ok (VNum (qc 30 1)) ∧
  ∃ key,
    get_preference_score "e_weight" "s_weight" "g_weight"
      {[ "e_score" := VNum (qc 10 1); "s_score" := VNum (qc 10 1) ]}
      {[ "e_weight" := VNum (qc 1 1); "s_weight" := VNum (qc 1 1);
         "g_weight" := VNum (qc 1 1) ]}
    = Raise (KeyError key) ∧ InvalidInputError (KeyError key).
Proof.
  split.
  - rewrite (proj1 (preference_score_weighted_sum "e_weight" "s_weight" "g_weight"
               _ _) (qc 1 1) (qc 1 1) (qc 1 1) (qc 10 1) (qc 10 1) (qc 10 1));
      try reflexivity.
  - apply (proj2 (preference_score_weighted_sum "e_weight" "s_weight" "g_weight"
             _ _)).
    right; right. reflexivity.
Defined.

(** ** The Yahoo Finance repository *)

Section RepositoryFacts.
Import YahooFinanceRepository.
Variable yf_Ticker : string → Ticker.

Lemma df_empty_false (df : DataFrame) k v :
  df !! k = Some v → df_empty df = false.
Proof.
  intros Hk. unfold df_empty. apply bool_decide_eq_false.
  intros Hsz. apply map_size_empty_iff in Hsz. subst df.
  by rewrite lookup_empty in Hk.
Qed.

Lemma df_empty_true (df : DataFrame) : df_empty df = true ↔ df = ∅.
Proof.
  unfold df_empty. rewrite bool_decide_eq_true. apply map_size_empty_iff.
Qed.

Lemma parse_response_unavailable response field default_value :
  response = None ∨ response = Some ∅ →
  _parse_response response field default_value = Ok default_value.
Proof. by intros [-> | ->]. Qed.

Lemma max_minus_max : sub (VNum MAX_RISK_SCORE) (VNum MAX_RISK_SCORE) = Ok (VNum 0%Qc).
Proof. unfold sub, num_op. by rewrite <- (Qcplus_opp_r MAX_RISK_SCORE). Qed.

Lemma risk_to_score_default ticker field cache cache' response :
  get_esg_score yf_Ticker ticker cache = (Ok response, cache') →
  _parse_response response field (VNum MAX_RISK_SCORE) = Ok (VNum MAX_RISK_SCORE) →
  risk_to_score yf_Ticker ticker field cache = (Ok (VNum 0%Qc), cache').
Proof.
  intros Hesg Hparse. unfold risk_to_score.
  unfold mbind, Repo_bind, repo_bind. rewrite Hesg.
  unfold repo_lift. rewrite Hparse. cbn [mbind res_bind bind].
  by rewrite max_minus_max.
Qed.

Lemma risk_to_score_unavailable ticker field cache cache' response :
  get_esg_score yf_Ticker ticker cache = (Ok response, cache') →
  response = None ∨ response = Some ∅ →
  risk_to_score yf_Ticker ticker field cache = (Ok (VNum 0%Qc), cache').
Proof.
  intros Hesg Hun. eapply risk_to_score_default; [done|].
  by apply parse_response_unavailable.
Qed.

Lemma cache_ok_empty : cache_ok ∅.
Proof. intros s stock Hs. by rewrite lookup_empty in Hs. Qed.

Lemma cache_ok_store ticker stock df cache :
  cache_ok cache → sustainability stock = Some df → df_empty df = false →
  cache_ok (store ticker stock cache).
Proof.
  intros Hok Hs Hdf. destruct ticker as [|t|]; cbn; try done.
  intros s stock'. rewrite lookup_insert. case_decide.
  - intros [= <-]. eauto.
  - apply Hok.
Qed.

Lemma get_esg_score_cache_ok ticker cache r cache' :
  cache_ok cache → get_esg_score yf_Ticker ticker cache = (r, cache') →
  cache_ok cache'.
Proof.
  intros Hok. unfold get_esg_score.
  destruct (cached cache ticker); [by intros [= _ <-]|].
  destruct (new_Ticker yf_Ticker ticker) as [stock|]; [|by intros [= _ <-]].
  destruct (sustainability stock) as [df|] eqn:Hs; [|by intros [= _ <-]].
  destruct (df_empty df) eqn:Hdf; intros [= _ <-]; [done|].
  by eapply cache_ok_store.
Qed.

Lemma get_sector_cache_ok ticker cache r cache' :
  cache_ok cache → get_sector yf_Ticker ticker cache = (r, cache') →
  cache_ok cache'.
Proof.
  intros Hok. unfold get_sector.
  destruct (cached cache ticker); [by intros [= _ <-]|].
  destruct (new_Ticker yf_Ticker ticker) as [stock|]; [|by intros [= _ <-]].
  destruct (sustainability stock) as [df|] eqn:Hs; [|by intros [= _ <-]].
  destruct (df_empty df) eqn:Hdf; intros [= _ <-]; [done|].
  by eapply cache_ok_store.
Qed.

Lemma cached_Some cache ticker stock :
  cached cache ticker = Some stock → ∃ s, ticker = VStr s ∧ cache !! s = Some stock.
Proof. destruct ticker; cbn; naive_solver. Qed.

(** C5, as the code has it: when the ESG frame of a ticker is unavailable
    ([None] or empty), [get_e_score], [get_s_score] and [get_g_score] answer
    0 (the default raw risk 40 turned into the score 40 - 40),
    [get_controversies] answers 10, and, for a cache that holds only tickers
    with ESG data, [get_sector] answers [None]; none of them raises. *)
Theorem unavailable_data_defaults ticker cache cache' response :
  get_esg_score yf_Ticker ticker cache = (Ok response, cache') →
  response = None ∨ response = Some ∅ →
  get_e_score yf_Ticker ticker cache = (Ok (VNum 0%Qc), cache') ∧
  get_s_score yf_Ticker ticker cache = (Ok (VNum 0%Qc), cache') ∧
  get_g_score yf_Ticker ticker cache = (Ok (VNum 0%Qc), cache') ∧
  get_controversies yf_Ticker ticker cache = (Ok (VNum (qc 10 1)), cache') ∧
  (cache_ok cache → get_sector yf_Ticker ticker cache = (Ok VNone, cache')).
Proof.
  intros Hesg Hun.
  repeat split; try by eapply risk_to_score_unavailable.
  - unfold get_controversies, mbind, Repo_bind, repo_bind. rewrite Hesg.
    unfold repo_lift. by rewrite parse_response_unavailable.
  - intros Hok. revert Hesg. unfold get_esg_score, get_sector.
    destruct (cached cache ticker) as [stock|] eqn:Hc.
    + apply cached_Some in Hc as (s & -> & Hs).
      destruct (Hok _ _ Hs) as (df & Hdf & Hne).
      intros [= <- <-]. rewrite Hdf in Hun.
      destruct Hun as [?|[= ->]]; [done|]. by vm_compute in Hne.
    + destruct (new_Ticker yf_Ticker ticker) as [stock|]; [|done].
      destruct (sustainability stock) as [df|]; [|done].
      destruct (df_empty df) eqn:Hdf; [by intros [= <- <-]|].
      intros [= <- <-]. destruct Hun as [?|[= ->]]; [done|].
      by vm_compute in Hdf.
Qed.

(** C10: when the frame is present and the requested field is 0,
    [_parse_response] answers the default instead of 0; so a raw environment,
    social or governance risk of 0 gives the score 40 - 40 = 0, the very
    answer the getter gives when the data is missing. *)
Theorem zero_risk_reads_as_missing ticker cache cache' (df : DataFrame) :
  get_esg_score yf_Ticker ticker cache = (Ok (Some df), cache') →
  (∀ field default_value,
     df !! field = Some (VNum 0%Qc) →
     _parse_response (Some df) field default_value = Ok default_value) ∧
  (df !! "environmentScore" = Some (VNum 0%Qc) →
     get_e_score yf_Ticker ticker cache = (Ok (VNum 0%Qc), cache')) ∧
  (df !! "socialScore" = Some (VNum 0%Qc) →
     get_s_score yf_Ticker ticker cache = (Ok (VNum 0%Qc), cache')) ∧
  (df !! "governanceScore" = Some (VNum 0%Qc) →
     get_g_score yf_Ticker ticker cache = (Ok (VNum 0%Qc), cache')) ∧
  (∀ ticker0 cache0 cache0',
     get_esg_score yf_Ticker ticker0 cache0 = (Ok None, cache0') →
     (get_e_score yf_Ticker ticker0 cache0).1 = Ok (VNum 0%Qc) ∧
     (get_s_score yf_Ticker ticker0 cache0).1 = Ok (VNum 0%Qc) ∧
     (get_g_score yf_Ticker ticker0 cache0).1 = Ok (VNum 0%Qc)).
Proof.
  intros Hesg.
  assert (Hparse : ∀ field default_value,
    df !! field = Some (VNum 0%Qc) →
    _parse_response (Some df) field default_value = Ok default_value).
  { intros field d Hf. unfold _parse_response.
    rewrite (df_empty_false _ _ _ Hf), (getitem_Some _ _ _ Hf). done. }
  split; [done|].
  repeat split; try (intros Hf; eapply risk_to_score_default; [done|by apply Hparse]).
  all: unfold get_e_score, get_s_score, get_g_score;
    by erewrite risk_to_score_unavailable; [| |left].
Qed.

End RepositoryFacts.

(** ** Sorting by return *)

Lemma sort_desc_cons {A} k (x : A) l :
  sort_desc ((k, x) :: l) = insert_desc k x (sort_desc l).
Proof. reflexivity. Qed.

Lemma insert_desc_Forall {A} (P : Qc * A → Prop) k x l :
  P (k, x) → Forall P l → Forall P (insert_desc k x l).
Proof.
  intros Hx. induction 1 as [|[k' y] l Hy Hl IH]; cbn.
  - by constructor.
  - destruct (leb k' k); repeat constructor; done.
Qed.

Lemma sort_desc_Forall {A} (P : Qc * A → Prop) l :
  Forall P l → Forall P (sort_desc l).
Proof.
  induction 1 as [|[k x] l Hx Hl IH]; [constructor|].
  rewrite sort_desc_cons. by apply insert_desc_Forall.
Qed.

Lemma sort_desc_perm {A} (l : list (Qc * A)) : sort_desc l ≡ₚ l.
Proof.
  assert (Hins : ∀ k (x : A) s, insert_desc k x s ≡ₚ (k, x) :: s).
  { intros k x s. induction s as [|[k' y] s IH]; cbn; [done|].
    destruct (leb k' k); [done|]. rewrite IH. apply Permutation_swap. }
  induction l as [|[k x] l IH]; [done|].
  by rewrite sort_desc_cons, Hins, IH.
Qed.

(** The head of the sorted list is the first element with the greatest key. *)
Lemma sort_desc_head {A} (pre post : list (Qc * A)) k x :
  Forall (λ ky, (ky.1 < k)%Qc) pre →
  Forall (λ ky, (ky.1 ≤ k)%Qc) post →
  head (sort_desc (pre ++ (k, x) :: post)) = Some (k, x).
Proof.
  intros Hpre Hpost.
  induction Hpre as [|[k0 x0] pre Hk0 Hpre IH]; cbn [app]; rewrite sort_desc_cons.
  - apply (sort_desc_Forall _ _) in Hpost.
    destruct Hpost as [|[k' y] l Hy _]; cbn; [done|].
    cbn in Hy. apply leb_le in Hy. by rewrite Hy.
  - destruct (sort_desc (pre ++ (k, x) :: post)) as [|[k' y] l]; [done|].
    cbn in IH. injection IH as -> ->. cbn.
    cbn in Hk0. apply leb_gt in Hk0. by rewrite Hk0.
Qed.

(** ** The risk filter and the choice within one window *)

Lemma index_last_nonempty (p : Portfolio) : p ≠ [] → index_last p = Ok (risk_of p).
Proof.
  intros Hp. unfold index_last, risk_of.
  destruct (last p) eqn:Hl; [done|]. by apply last_None in Hl.
Qed.

Lemma index0_nonempty (p : Portfolio) : p ≠ [] → index0 p = Ok (ret_of p).
Proof. by destruct p. Qed.

Lemma risk_filter_spec risk_tolerance (portfolios : list Portfolio) :
  Forall (λ p, p ≠ []) portfolios →
  risk_filter risk_tolerance portfolios
  = Ok (filter (within_risk risk_tolerance) portfolios).
Proof.
  induction 1 as [|p ps Hp Hps IH]; [done|].
  cbn [risk_filter]. rewrite (index_last_nonempty _ Hp), IH, filter_cons.
  cbn [mbind res_bind bind]. destruct (decide _) as [Hr|Hr]; unfold within_risk in Hr.
  - apply leb_le in Hr. by rewrite Hr.
  - apply Qclt_nge, leb_gt in Hr. by rewrite Hr.
Qed.

Lemma mapM_index0 (l : list Portfolio) :
  Forall (λ p, p ≠ []) l → mapM index0 l = Ok (ret_of <$> l).
Proof.
  induction 1 as [|p l Hp Hl IH]; [done|].
  cbn [mapM]. by rewrite (index0_nonempty _ Hp), IH.
Qed.

Lemma zip_fmap_self {A B} (f : A → B) (l : list A) :
  zip (f <$> l) l = (λ x, (f x, x)) <$> l.
Proof. induction l as [|x l IH]; [done|]. cbn. by rewrite IH. Qed.

Lemma sorted_by_return_spec (kept : list Portfolio) :
  Forall (λ p, p ≠ []) kept →
  sorted_by_return kept
  = Ok ((sort_desc ((λ p, (ret_of p, p)) <$> kept)).*2).
Proof.
  intros Hne. unfold sorted_by_return.
  rewrite (mapM_index0 _ Hne). cbn [mbind res_bind bind].
  by rewrite zip_fmap_self.
Qed.

Lemma sorted_by_return_perm (kept sorted_portfolio : list Portfolio) :
  Forall (λ p, p ≠ []) kept →
  sorted_by_return kept = Ok sorted_portfolio → sorted_portfolio ≡ₚ kept.
Proof.
  intros Hne. rewrite (sorted_by_return_spec _ Hne). intros [= <-].
  rewrite sort_desc_perm, <- list_fmap_compose.
  by rewrite <- (list_fmap_id kept) at 2.
Qed.

Lemma first_best_elem best kept : first_best best kept → best ∈ kept.
Proof. intros (pre & post & -> & _). set_solver. Qed.

Lemma first_best_max best kept p :
  first_best best kept → p ∈ kept → (ret_of p ≤ ret_of best)%Qc.
Proof.
  intros (pre & post & -> & Hpre & Hpost) Hp.
  rewrite Forall_forall in Hpre. rewrite Forall_forall in Hpost.
  apply elem_of_app in Hp as [Hp|Hp]; [by apply Qclt_le_weak, Hpre|].
  apply elem_of_cons in Hp as [->|Hp]; [apply Qcle_refl|by apply Hpost].
Qed.

Lemma first_best_exists kept : kept ≠ [] → ∃ best, first_best best kept.
Proof.
  induction kept as [|p l IH]; [done|]. intros _.
  destruct l as [|q l].
  { exists p, [], []. by repeat split. }
  destruct IH as (best & Hbest); [done|].
  destruct (Qclt_le_dec (ret_of p) (ret_of best)) as [Hlt|Hle].
  - destruct Hbest as (pre & post & Heq & Hpre & Hpost).
    exists best, (p :: pre), post. rewrite Heq. repeat split; [|done].
    by constructor.
  - exists p, [], (q :: l). repeat split; [constructor|].
    apply Forall_forall. intros x Hx.
    eapply Qcle_trans; [|exact Hle]. by eapply first_best_max.
Qed.

Lemma sorted_by_return_head kept best :
  Forall (λ p, p ≠ []) kept → first_best best kept →
  ∃ rest, sorted_by_return kept = Ok (best :: rest).
Proof.
  intros Hne (pre & post & -> & Hpre & Hpost).
  rewrite (sorted_by_return_spec _ Hne), fmap_app, fmap_cons.
  pose proof (sort_desc_head ((λ p, (ret_of p, p)) <$> pre)
                ((λ p, (ret_of p, p)) <$> post) (ret_of best) best) as Hhd.
  destruct (sort_desc _) as [|[k x] l] eqn:Hs.
  - exfalso. rewrite !Forall_fmap in Hhd. by specialize (Hhd Hpre Hpost).
  - rewrite !Forall_fmap in Hhd. specialize (Hhd Hpre Hpost).
    injection Hhd as -> ->. by eexists.
Qed.

(** ** One window *)

Section WindowFacts.
Variable get_portfolio_data : list value → res (gmap string (list Portfolio)).
Variables (companies : list Company) (portfolio_size : nat) (risk_tolerance : Qc).

Lemma kept_nonempty (portfolios : list Portfolio) :
  Forall (λ p, p ≠ []) portfolios →
  Forall (λ p, p ≠ []) (filter (within_risk risk_tolerance) portfolios).
Proof.
  rewrite !Forall_forall. intros H p Hp.
  apply list_elem_of_filter in Hp as [_ Hp]. by apply H.
Qed.

Lemma try_window_empty i tickers portfolios :
  answers get_portfolio_data companies portfolio_size i tickers portfolios →
  filter (within_risk risk_tolerance) portfolios = [] →
  try_window get_portfolio_data companies portfolio_size risk_tolerance i
  = ([tickers], Ok None).
Proof.
  intros (Hwt & result & Hreq & Hdata & Hne) Hkept.
  unfold try_window. rewrite Hwt, Hreq. res_step.
  rewrite (getitem_Some _ _ _ Hdata). res_step.
  rewrite (risk_filter_spec _ _ Hne), Hkept. done.
Qed.

Lemma try_window_best i tickers portfolios best :
  answers get_portfolio_data companies portfolio_size i tickers portfolios →
  first_best best (filter (within_risk risk_tolerance) portfolios) →
  try_window get_portfolio_data companies portfolio_size risk_tolerance i
  = ([tickers],
     if ltb 0 (ret_of best)
     then Ok (Some (window_portfolio companies portfolio_size i tickers best))
     else Ok None).
Proof.
  intros (Hwt & result & Hreq & Hdata & Hne) Hbest.
  pose proof (kept_nonempty _ Hne) as Hkne.
  destruct (sorted_by_return_head _ _ Hkne Hbest) as (rest & Hsorted).
  assert (best ≠ []) as Hb.
  { rewrite Forall_forall in Hkne. by apply Hkne, first_best_elem. }
  unfold try_window. rewrite Hwt, Hreq. res_step.
  rewrite (getitem_Some _ _ _ Hdata). res_step.
  rewrite (risk_filter_spec _ _ Hne). res_step.
  rewrite Hsorted. res_step.
  rewrite (index0_nonempty _ Hb). res_step.
  destruct (ltb 0 (ret_of best)); [|done].
  by rewrite (index_last_nonempty _ Hb).
Qed.

Lemma try_window_infeasible i tickers portfolios :
  answers get_portfolio_data companies portfolio_size i tickers portfolios →
  Forall (λ p, ¬ feasible risk_tolerance p) portfolios →
  try_window get_portfolio_data companies portfolio_size risk_tolerance i
  = ([tickers], Ok None).
Proof.
  intros Hans Hinf.
  destruct (filter (within_risk risk_tolerance) portfolios) as [|p l] eqn:Hkept.
  { by apply try_window_empty with portfolios. }
  destruct (first_best_exists (p :: l)) as (best & Hbest); [done|].
  rewrite <- Hkept in Hbest. rewrite (try_window_best _ _ _ _ Hans Hbest).
  apply first_best_elem, list_elem_of_filter in Hbest as [Hrisk Hin].
  rewrite Forall_forall in Hinf. specialize (Hinf _ Hin).
  destruct (ltb 0 (ret_of best)) eqn:Hpos; [|done].
  apply ltb_lt in Hpos. by destruct Hinf.
Qed.

Lemma try_window_feasible i tickers portfolios :
  answers get_portfolio_data companies portfolio_size i tickers portfolios →
  Exists (feasible risk_tolerance) portfolios →
  ∃ best, first_best best (filter (within_risk risk_tolerance) portfolios) ∧
    (0 < ret_of best)%Qc ∧
    try_window get_portfolio_data companies portfolio_size risk_tolerance i
    = ([tickers], Ok (Some (window_portfolio companies portfolio_size i tickers best))).
Proof.
  intros Hans Hfeas. apply Exists_exists in Hfeas as (p & Hin & Hrisk & Hpos).
  assert (p ∈ filter (within_risk risk_tolerance) portfolios) as Hp.
  { by apply list_elem_of_filter. }
  destruct (first_best_exists (filter (within_risk risk_tolerance) portfolios))
    as (best & Hbest).
  { intros Hnil. rewrite Hnil in Hp. by apply elem_of_nil in Hp. }
  assert (0 < ret_of best)%Qc as Hbpos.
  { eapply Qclt_le_trans; [exact Hpos|]. by eapply first_best_max. }
  exists best. repeat split; [done..|].
  rewrite (try_window_best _ _ _ _ Hans Hbest).
  apply ltb_lt in Hbpos. by rewrite Hbpos.
Qed.

(** ** The loop over the windows *)

Lemma search_all_none (tks : nat → list value) offsets :
  (∀ j, j ∈ offsets →
     try_window get_portfolio_data companies portfolio_size risk_tolerance j
     = ([tks j], Ok None)) →
  search get_portfolio_data companies portfolio_size risk_tolerance offsets
  = (tks <$> offsets, Ok None).
Proof.
  induction offsets as [|i rest IH]; intros Hall; [done|].
  cbn [search]. rewrite Hall by set_solver. rewrite IH by set_solver. done.
Qed.

Lemma search_first_some (tks : nat → list value) pre i post r :
  (∀ j, j ∈ pre →
     try_window get_portfolio_data companies portfolio_size risk_tolerance j
     = ([tks j], Ok None)) →
  try_window get_portfolio_data companies portfolio_size risk_tolerance i
  = ([tks i], Ok (Some r)) →
  search get_portfolio_data companies portfolio_size risk_tolerance
    (pre ++ i :: post)
  = (tks <$> (pre ++ [i]), Ok (Some r)).
Proof.
  intros Hpre Hi. induction pre as [|j pre IH]; cbn [app search].
  - by rewrite Hi.
  - rewrite Hpre by set_solver. rewrite IH by set_solver. done.
Qed.

End WindowFacts.

(** ** PortfolioSelector *)

Section SelectorFacts.
Variable get_portfolio_data : list value → res (gmap string (list Portfolio)).
Variables (ranked : list Company) (portfolio_size : nat) (risk_tolerance : Qc).

(** C2: within one window the candidates kept are exactly those whose risk
    is at most the ceiling (a risk equal to the ceiling passes), in the order
    of the answer; the candidate acted upon is the first of the kept ones with
    the greatest return: it heads the sorted list, and the window returns its
    portfolio when that return is positive and falls through otherwise. *)
Theorem window_choice i tickers portfolios :
  answers get_portfolio_data ranked portfolio_size i tickers portfolios →
  let kept := filter (within_risk risk_tolerance) portfolios in
  risk_filter risk_tolerance portfolios = Ok kept ∧
  (∀ p, p ∈ kept ↔ p ∈ portfolios ∧ (risk_of p ≤ risk_tolerance)%Qc) ∧
  (∀ p, p ∈ portfolios → risk_of p = risk_tolerance → p ∈ kept) ∧
  (∀ p, p ∈ portfolios → (risk_tolerance < risk_of p)%Qc → p ∉ kept) ∧
  (kept ≠ [] → ∃ best, first_best best kept) ∧
  (kept = [] →
     try_window get_portfolio_data ranked portfolio_size risk_tolerance i
     = ([tickers], Ok None)) ∧
  (∀ best, first_best best kept →
     (∃ rest, sorted_by_return kept = Ok (best :: rest)) ∧
     ((0 < ret_of best)%Qc →
        try_window get_portfolio_data ranked portfolio_size risk_tolerance i
        = ([tickers],
           Ok (Some (window_portfolio ranked portfolio_size i tickers best)))) ∧
     ((ret_of best ≤ 0)%Qc →
        try_window get_portfolio_data ranked portfolio_size risk_tolerance i
        = ([tickers], Ok None))).
Proof.
  intros Hans kept. pose proof Hans as (_ & _ & _ & _ & Hne).
  assert (Hmem : ∀ p, p ∈ kept ↔ p ∈ portfolios ∧ (risk_of p ≤ risk_tolerance)%Qc).
  { intros p. unfold kept. rewrite list_elem_of_filter. unfold within_risk. tauto. }
  split; [by apply risk_filter_spec|].
  split; [done|].
  split; [intros p Hp Hr; apply Hmem; split; [done|rewrite Hr; apply Qcle_refl]|].
  split; [intros p Hp Hr [_ Hle]%Hmem; by apply Qclt_not_le in Hr|].
  split; [apply first_best_exists|].
  split; [by apply try_window_empty|].
  intros best Hbest. split; [|split].
  - apply sorted_by_return_head; [by apply kept_nonempty|done].
  - intros Hpos. rewrite (try_window_best _ _ _ _ _ _ _ _ Hans Hbest).
    apply ltb_lt in Hpos. by rewrite Hpos.
  - intros Hneg. rewrite (try_window_best _ _ _ _ _ _ _ _ Hans Hbest).
    apply ltb_ge in Hneg. by rewrite Hneg.
Qed.

Lemma range_split (n : Z) (i : nat) :
  (Z.of_nat i < n)%Z → ∃ post, range n = seq 0 i ++ i :: post.
Proof.
  intros Hi. unfold range.
  replace (Z.to_nat n) with (i + S (Z.to_nat n - S i))%nat by lia.
  rewrite seq_app. cbn. eauto.
Qed.

Lemma elem_of_range (n : Z) (j : nat) : j ∈ range n ↔ (Z.of_nat j < n)%Z.
Proof. unfold range. rewrite elem_of_seq. lia. Qed.

(** C1: the windows are tried at the offsets 0, 1, ... in increasing order;
    when the windows before offset [i] have no feasible candidate and the one
    at [i] has, the call returns the portfolio of window [i], and the requests
    made to the analytics service are exactly those for the windows 0 to [i],
    in that order: nothing is requested after the first success. *)
Theorem first_feasible_window_wins
    (i : nat) (tks : nat → list value) (pfs : nat → list Portfolio) :
  (Z.of_nat i ≤ Z.of_nat (length ranked) - Z.of_nat portfolio_size)%Z →
  (∀ j, j ≤ i →
     answers get_portfolio_data ranked portfolio_size j (tks j) (pfs j)) →
  (∀ j, j < i → Forall (λ p, ¬ feasible risk_tolerance p) (pfs j)) →
  Exists (feasible risk_tolerance) (pfs i) →
  ∃ best,
    first_best best (filter (within_risk risk_tolerance) (pfs i)) ∧
    (0 < ret_of best)%Qc ∧
    get_portfolio_recommendation get_portfolio_data ranked portfolio_size
      risk_tolerance
    = (tks <$> seq 0 (S i),
       Ok (Some (window_portfolio ranked portfolio_size i (tks i) best))).
Proof.
  intros Hi Hans Hbefore Hfeas.
  destruct (try_window_feasible get_portfolio_data ranked portfolio_size
              risk_tolerance i (tks i) (pfs i)) as (best & Hbest & Hpos & Htry);
    [by apply Hans|done|].
  exists best. repeat split; [done..|].
  unfold get_portfolio_recommendation.
  destruct (range_split (Z.of_nat (length ranked) - Z.of_nat portfolio_size + 1) i)
    as (post & ->); [lia|].
  rewrite seq_S. apply search_first_some; [|done].
  intros j Hj%elem_of_seq. apply try_window_infeasible with (pfs j).
  - apply Hans. lia.
  - apply Hbefore. lia.
Qed.

(** C3: when every window is answered and no window has a feasible
    candidate (its kept candidates are none, or the best of them does not
    return more than 0), the call returns [None] after asking for every
    window; it does not raise, and [None] is neither an exception nor a
    portfolio. *)
Theorem no_feasible_window_is_not_found
    (tks : nat → list value) (pfs : nat → list Portfolio) :
  (∀ j, (Z.of_nat j ≤ Z.of_nat (length ranked) - Z.of_nat portfolio_size)%Z →
     answers get_portfolio_data ranked portfolio_size j (tks j) (pfs j)) →
  (∀ j, (Z.of_nat j ≤ Z.of_nat (length ranked) - Z.of_nat portfolio_size)%Z →
     Forall (λ p, ¬ feasible risk_tolerance p) (pfs j)) →
  get_portfolio_recommendation get_portfolio_data ranked portfolio_size
    risk_tolerance
  = (tks <$> range (Z.of_nat (length ranked) - Z.of_nat portfolio_size + 1),
     Ok None) ∧
  (∀ e, (get_portfolio_recommendation get_portfolio_data ranked portfolio_size
           risk_tolerance).2 ≠ Raise e) ∧
  (∀ r, (get_portfolio_recommendation get_portfolio_data ranked portfolio_size
           risk_tolerance).2 ≠ Ok (Some r)).
Proof.
  intros Hans Hinf.
  assert (get_portfolio_recommendation get_portfolio_data ranked portfolio_size
            risk_tolerance
          = (tks <$> range (Z.of_nat (length ranked) - Z.of_nat portfolio_size + 1),
             Ok None)) as Heq.
  { unfold get_portfolio_recommendation. apply search_all_none.
    intros j Hj%elem_of_range. apply try_window_infeasible with (pfs j).
    - apply Hans. lia.
    - apply Hinf. lia. }
  rewrite Heq. by repeat split.
Qed.

(** C4, as the code has it: when [portfolio_size] equals the number of
    companies there is exactly one window, at offset 0, spanning the whole
    list, and it is the only request made; when the list is strictly shorter
    than [portfolio_size] the range of offsets is empty, no request is made
    at all, and the call returns [None] without raising. *)
Theorem exact_or_undersized_pool :
  (length ranked = portfolio_size →
     range (Z.of_nat (length ranked) - Z.of_nat portfolio_size + 1) = [0] ∧
     slice 0 (0 + portfolio_size) ranked = ranked ∧
     ∀ tickers, window_tickers ranked 0 portfolio_size = Ok tickers →
       ∃ outcome,
         get_portfolio_recommendation get_portfolio_data ranked portfolio_size
           risk_tolerance = ([tickers], outcome)) ∧
  (length ranked < portfolio_size →
     range (Z.of_nat (length ranked) - Z.of_nat portfolio_size + 1) = [] ∧
     get_portfolio_recommendation get_portfolio_data ranked portfolio_size
       risk_tolerance = ([], Ok None)).
Proof.
  split.
  - intros Hlen.
    assert (range (Z.of_nat (length ranked) - Z.of_nat portfolio_size + 1) = [0])
      as Hr.
    { unfold range.
      by replace (Z.of_nat (length ranked) - Z.of_nat portfolio_size + 1)%Z
        with 1%Z by lia. }
    split; [done|]. split.
    + unfold slice. rewrite drop_0. apply take_ge. lia.
    + intros tickers Hwt. unfold get_portfolio_recommendation. rewrite Hr.
      cbn [search]. unfold try_window. rewrite Hwt.
      match goal with |- context [([tickers], ?o)] => destruct o as [[r|]|e] end;
        eauto.
  - intros Hlen.
    assert (range (Z.of_nat (length ranked) - Z.of_nat portfolio_size + 1) = [])
      as Hr.
    { unfold range.
      by replace (Z.to_nat (Z.of_nat (length ranked) - Z.of_nat portfolio_size + 1))
        with 0 by lia. }
    split; [done|]. unfold get_portfolio_recommendation. by rewrite Hr.
Qed.

End SelectorFacts.

(** ** The shape of a returned portfolio *)

Lemma mapM_res_Forall2 {A B} (f : A → res B) l k :
  mapM f l = Ok k → Forall2 (λ x y, f x = Ok y) l k.
Proof.
  revert k. induction l as [|x l IH]; intros k; cbn [mapM].
  - intros [= <-]. constructor.
  - destruct (f x) as [y|] eqn:Hx; [|done]. res_step.
    destruct (mapM f l) as [k'|]; [|done]. intros [= <-].
    constructor; [done|]. by apply IH.
Qed.

Lemma risk_filter_Ok_inv risk_tolerance portfolios kept :
  risk_filter risk_tolerance portfolios = Ok kept →
  Forall (λ p, p ≠ []) portfolios.
Proof.
  revert kept. induction portfolios as [|p ps IH]; intros kept; [constructor|].
  cbn [risk_filter]. unfold index_last.
  destruct (last p) eqn:Hl; [|done]. res_step.
  destruct (risk_filter risk_tolerance ps) as [kept'|]; [|done]. intros _.
  constructor; [|by eapply IH]. intros ->. done.
Qed.

(** A record of length [n + 2] is its return, [n] weights and its risk. *)
Lemma record_middle (n : nat) (p : Portfolio) :
  length p = n + 2 →
  p = ret_of p :: slice 1 (n + 1) p ++ [risk_of p] ∧
  length (slice 1 (n + 1) p) = n.
Proof.
  intros Hlen. destruct p as [|x tl]; [cbn in Hlen; lia|].
  destruct (exists_last (l := tl)) as (m & z & ->).
  { intros ->. cbn in Hlen. lia. }
  cbn in Hlen. rewrite length_app in Hlen. cbn in Hlen.
  assert (length m = n) as Hm by lia.
  unfold slice, risk_of, ret_of.
  replace (n + 1 - 1) with n by lia. cbn [drop head default id].
  rewrite drop_0, take_app_length' by done.
  change (x :: m ++ [z]) with ((x :: m) ++ [z]) at 2. by rewrite last_snoc.
Qed.

Section ShapeFacts.
Variable get_portfolio_data : list value → res (gmap string (list Portfolio)).
Variables (ranked : list Company) (portfolio_size : nat) (risk_tolerance : Qc).

Lemma try_window_Some_inv i log r :
  try_window get_portfolio_data ranked portfolio_size risk_tolerance i
  = (log, Ok (Some r)) →
  ∃ tks result portfolios best,
    window_tickers ranked i portfolio_size = Ok tks ∧ log = [tks] ∧
    get_portfolio_data tks = Ok result ∧ result !! "data" = Some portfolios ∧
    best ∈ portfolios ∧ feasible risk_tolerance best ∧
    r = window_portfolio ranked portfolio_size i tks best.
Proof.
  unfold try_window.
  destruct (window_tickers ranked i portfolio_size) as [tks|] eqn:Hwt; [|done].
  intros [= <- Hr]. revert Hr.
  destruct (get_portfolio_data tks) as [result|] eqn:Hreq; [|done]. res_step.
  unfold getitem at 1. destruct (result !! "data") as [portfolios|] eqn:Hd; [|done].
  res_step.
  destruct (risk_filter risk_tolerance portfolios) as [kept|] eqn:Hf; [|done].
  pose proof (risk_filter_Ok_inv _ _ _ Hf) as Hne.
  rewrite (risk_filter_spec _ _ Hne) in Hf. injection Hf as <-. res_step.
  destruct (sorted_by_return _) as [sorted_portfolio|] eqn:Hs; [|done]. res_step.
  destruct sorted_portfolio as [|best rest]; [done|].
  assert (best ∈ filter (within_risk risk_tolerance) portfolios) as Hin.
  { apply sorted_by_return_perm in Hs; [|by apply kept_nonempty].
    rewrite <- Hs. set_solver. }
  apply list_elem_of_filter in Hin as [Hrisk Hin].
  assert (best ≠ []) as Hb.
  { rewrite Forall_forall in Hne. by apply Hne. }
  rewrite (index0_nonempty _ Hb). res_step.
  destruct (ltb 0 (ret_of best)) eqn:Hpos; [|done].
  rewrite (index_last_nonempty _ Hb). res_step. intros [= <-].
  apply ltb_lt in Hpos. by exists tks, result, portfolios, best.
Qed.

Lemma search_Some_inv offsets log r :
  search get_portfolio_data ranked portfolio_size risk_tolerance offsets
  = (log, Ok (Some r)) →
  ∃ i log_before log_i,
    i ∈ offsets ∧ log = log_before ++ log_i ∧
    try_window get_portfolio_data ranked portfolio_size risk_tolerance i
    = (log_i, Ok (Some r)).
Proof.
  revert log. induction offsets as [|i rest IH]; intros log; [done|].
  cbn [search].
  destruct (try_window _ _ _ _ i) as [log_i [[r'|]|e]] eqn:Htry.
  - intros [= <- <-]. exists i, [], log_i. split; [set_solver|done].
  - destruct (search _ _ _ _ rest) as [log' o] eqn:Hs. intros [= <- ->].
    destruct (IH _ eq_refl) as (j & lb & lj & Hj & -> & Hjt).
    exists j, (log_i ++ lb), lj. rewrite (assoc_L (++)). split; [set_solver|done].
  - done.
Qed.

(** C7: for an analytics service that answers [N] tickers with records of
    length [N + 2], a returned portfolio has [portfolio_size] tickers,
    proportions and companies; its companies are a contiguous window of the
    ranked list, in the ranking's order; its tickers are the tickers of those
    companies, one by one, and are the last ticker sequence submitted; and
    its return, proportions and risk are, in this order, one record of the
    answer to that submission. *)
Theorem recommended_portfolio_shape log r :
  (∀ tks result portfolios,
     get_portfolio_data tks = Ok result → result !! "data" = Some portfolios →
     Forall (λ p, length p = length tks + 2) portfolios) →
  get_portfolio_recommendation get_portfolio_data ranked portfolio_size
    risk_tolerance = (log, Ok (Some r)) →
  length (tickers r) = portfolio_size ∧
  length (proportions r) = portfolio_size ∧
  length (companies r) = portfolio_size ∧
  ∃ i,
    i + portfolio_size ≤ length ranked ∧
    companies r = slice i (i + portfolio_size) ranked ∧
    Forall2 (λ (c : Company) t, c !! "ticker" = Some t) (companies r) (tickers r) ∧
    last log = Some (tickers r) ∧
    ∃ result portfolios,
      get_portfolio_data (tickers r) = Ok result ∧
      result !! "data" = Some portfolios ∧
      return_ r :: proportions r ++ [risk r] ∈ portfolios.
Proof.
  intros Hcontract Hrun. unfold get_portfolio_recommendation in Hrun.
  apply search_Some_inv in Hrun as (i & lb & li & Hi & -> & Htry).
  apply elem_of_range in Hi.
  apply try_window_Some_inv in Htry
    as (tks & result & portfolios & best & Hwt & -> & Hreq & Hd & Hin & _ & ->).
  cbn [tickers proportions companies risk return_ window_portfolio].
  assert (length (slice i (i + portfolio_size) ranked) = portfolio_size) as Hlc.
  { unfold slice. rewrite length_take, length_drop. lia. }
  apply mapM_res_Forall2 in Hwt.
  assert (length tks = portfolio_size) as Hlt.
  { apply Forall2_length in Hwt. lia. }
  pose proof (Hcontract _ _ _ Hreq Hd) as Hlens.
  rewrite Forall_forall in Hlens. specialize (Hlens _ Hin). rewrite Hlt in Hlens.
  destruct (record_middle _ _ Hlens) as [Hmid Hlp].
  split; [done|]. split; [done|]. split; [done|].
  exists i. split; [lia|]. split; [done|]. split; [|split].
  - eapply Forall2_impl; [exact Hwt|]. intros c t. unfold getitem.
    by destruct (c !! "ticker"); intros [= ->].
  - by rewrite last_snoc.
  - exists result, portfolios. by rewrite <- Hmid.
Qed.

End ShapeFacts.

(** ** CompanyEnricher *)

Section EnricherFacts.
Variable yf_Ticker : string → Ticker.

Lemma enrich_loop_stops pre c post cache pre' cache1 e cache2 :
  enrich_loop yf_Ticker pre cache = (pre', None, cache1) →
  enrich_company yf_Ticker c cache1 = (Raise e, cache2) →
  enrich_loop yf_Ticker (pre ++ c :: post) cache
  = (pre' ++ c :: post, Some e, cache2).
Proof.
  intros Hpre Hc. revert cache pre' Hpre.
  induction pre as [|c0 pre IH]; intros cache pre'; cbn [app enrich_loop].
  - intros [= <- <-]. by rewrite Hc.
  - destruct (enrich_company yf_Ticker c0 cache) as [[c0'|e0] cache0]; [|done].
    destruct (enrich_loop yf_Ticker pre cache0) as [[rest' err] cache''] eqn:Hl.
    intros [= <- -> ->]. by rewrite (IH _ _ Hl).
Qed.

(** C6, as the code has it: when the companies before [c] are enriched
    without an exception and a lookup for [c] raises [e], the call catches
    [e], prints it and returns [None]: nothing is raised to the caller and no
    list, partial or not, is returned (the companies before [c] were updated
    in place all the same).  The outcome differs from the empty list a call
    on no company returns, and it is the [None] that also stands for "no
    portfolio found". *)
Theorem enrichment_failure_is_swallowed pre c post cache pre' cache1 e cache2 :
  enrich_loop yf_Ticker pre cache = (pre', None, cache1) →
  enrich_company yf_Ticker c cache1 = (Raise e, cache2) →
  let r := enrich_companies_data yf_Ticker (pre ++ c :: post) cache in
  returned r = Ok None ∧
  printed r = [e] ∧
  initial_companies_data r = pre' ++ c :: post ∧
  (∀ e', returned r ≠ Raise e') ∧
  (∀ cs, returned r ≠ Ok (Some cs)) ∧
  returned (enrich_companies_data yf_Ticker [] cache) = Ok (Some []) ∧
  is_None (returned r) = true.
Proof.
  intros Hpre Hc r. unfold r, enrich_companies_data.
  rewrite (enrich_loop_stops _ _ post _ _ _ _ _ Hpre Hc). cbn.
  by repeat split.
Qed.

End EnricherFacts.

(** * The statements on the sample data *)

Import YahooFinanceRepository.

Lemma accepted_controversy_count_examples :
  get_accepted_controversies_count 0 = Raise (ValueError
    "Unexpected value 0 for calculating accepted controversies count") ∧
  get_accepted_controversies_count 6 = Raise (ValueError
    "Unexpected value 6 for calculating accepted controversies count").
Proof. split; by_vm. Qed.

Lemma unavailable_data_defaults_witness :
  get_e_score Sample.no_esg_data (VStr "AAPL") ∅ = (Ok (VNum 0%Qc), ∅) ∧
  get_s_score Sample.no_esg_data (VStr "AAPL") ∅ = (Ok (VNum 0%Qc), ∅) ∧
  get_g_score Sample.no_esg_data (VStr "AAPL") ∅ = (Ok (VNum 0%Qc), ∅) ∧
  get_controversies Sample.no_esg_data (VStr "AAPL") ∅ = (Ok (VNum (qc 10 1)), ∅) ∧
  (cache_ok ∅ → get_sector Sample.no_esg_data (VStr "AAPL") ∅ = (Ok VNone, ∅)).
Proof.
  apply (unavailable_data_defaults Sample.no_esg_data (VStr "AAPL") ∅ ∅ None).
  - by_vm.
  - left. reflexivity.
Defined.

(** The ESG frame of the ticker is unavailable and [get_e_score] answers 0,
    not 40. *)
Lemma unavailable_score_is_not_40 :
  get_esg_score Sample.no_esg_data (VStr "AAPL") ∅ = (Ok None, ∅) ∧
  (get_e_score Sample.no_esg_data (VStr "AAPL") ∅).1 = Ok (VNum 0%Qc) ∧
  (get_e_score Sample.no_esg_data (VStr "AAPL") ∅).1 ≠ Ok (VNum (qc 40 1)) ∧
  (get_s_score Sample.no_esg_data (VStr "AAPL") ∅).1 ≠ Ok (VNum (qc 40 1)) ∧
  (get_g_score Sample.no_esg_data (VStr "AAPL") ∅).1 ≠ Ok (VNum (qc 40 1)).
Proof.
  assert (∀ r : res value * Cache,
            r.1 = Ok (VNum 0%Qc) → r.1 ≠ Ok (VNum (qc 40 1))) as Hne.
  { intros r Hr H. rewrite Hr in H. discriminate H. }
  split; [by_vm|]. split; [by_vm|].
  repeat split; apply Hne; by_vm.
Qed.

Lemma zero_risk_reads_as_missing_witness :
  _parse_response (Some Sample.zero_risk_frame) "environmentScore"
    (VNum MAX_RISK_SCORE) = Ok (VNum MAX_RISK_SCORE) ∧
  (get_e_score Sample.zero_risk (VStr "AAPL") ∅).1 = Ok (VNum 0%Qc) ∧
  (get_s_score Sample.zero_risk (VStr "AAPL") ∅).1 = Ok (VNum 0%Qc) ∧
  (get_g_score Sample.zero_risk (VStr "AAPL") ∅).1 = Ok (VNum 0%Qc).
Proof.
  pose (cache' := (get_esg_score Sample.zero_risk (VStr "AAPL") ∅).2).
  assert (get_esg_score Sample.zero_risk (VStr "AAPL") ∅
          = (Ok (Some Sample.zero_risk_frame), cache')) as Hesg
    by (by_vm).
  destruct (zero_risk_reads_as_missing Sample.zero_risk (VStr "AAPL") ∅
              cache' Sample.zero_risk_frame Hesg)
    as (Hparse & He & Hs & Hg & _).
  split; [apply Hparse; by_vm|].
  rewrite He by (by_vm).
  rewrite Hs by (by_vm).
  rewrite Hg by (by_vm).
  split; [reflexivity|split; reflexivity].
Defined.

(** The sample service answers the first two windows of the sample ranking
    with non-empty records and the third with no record. *)
Lemma sample_answers j :
  j ≤ 2 →
  answers Sample.engine Sample.ranked 2 j (Sample.window j) (Sample.candidates j).
Proof.
  intros Hj. destruct j as [|[|[|j]]]; [| | |lia];
    (split; [by_vm|]);
    lazymatch goal with
    | |- ∃ _, _ ∧ _ = Some ?ps ∧ _ => exists {[ "data" := ps ]}
    end;
    (split; [by_vm|]);
    (split; [apply lookup_singleton_eq|]);
    repeat constructor; discriminate.
Qed.

(** The whole run on the sample: [A, B] is asked first and has nothing
    feasible under the ceiling 0.15; [B, C] is asked next and wins with the
    first of its two candidates of return 0.08; [C, D] is never asked. *)
Example sample_run :
  get_portfolio_recommendation Sample.engine Sample.ranked 2 (qc 15 100)
  = ([[VStr "A"; VStr "B"]; [VStr "B"; VStr "C"]],
     Ok (Some (mkRecommendedPortfolio
                 [VStr "B"; VStr "C"] [qc 1 4; qc 3 4] (qc 15 100) (qc 8 100)
                 [Sample.company "B"; Sample.company "C"]))).
Proof. by_vm. Qed.

Lemma first_feasible_window_wins_witness :
  ∃ best,
    first_best best (filter (within_risk (qc 15 100)) Sample.candidates_BC) ∧
    (0 < ret_of best)%Qc ∧
    get_portfolio_recommendation Sample.engine Sample.ranked 2 (qc 15 100)
    = (Sample.window <$> seq 0 2,
       Ok (Some (window_portfolio Sample.ranked 2 1 (Sample.window 1) best))).
Proof.
  apply (first_feasible_window_wins Sample.engine Sample.ranked 2 (qc 15 100)
           1 Sample.window Sample.candidates).
  - cbn. lia.
  - intros j Hj. apply sample_answers. lia.
  - intros j Hj. assert (j = 0) as -> by lia.
    by_evaluation.
  - by_evaluation.
Defined.

Lemma window_choice_witness :
  try_window Sample.engine Sample.ranked 2 (qc 15 100) 1
  = ([Sample.window 1],
     Ok (Some (window_portfolio Sample.ranked 2 1 (Sample.window 1)
                 [qc 8 100; qc 1 4; qc 3 4; qc 15 100]))).
Proof.
  destruct (window_choice Sample.engine Sample.ranked 2 (qc 15 100) 1
              (Sample.window 1) Sample.candidates_BC)
    as (_ & _ & _ & _ & _ & _ & Hbest).
  { apply (sample_answers 1). lia. }
  apply (Hbest [qc 8 100; qc 1 4; qc 3 4; qc 15 100]).
  - exists [[qc 5 100; qc 1 2; qc 1 2; qc 15 100]],
           [[qc 8 100; qc 3 4; qc 1 4; qc 1 10]].
    split; [by_vm|].
    split; repeat constructor; by_evaluation.
  - by_evaluation.
Defined.

Lemma no_feasible_window_is_not_found_witness :
  get_portfolio_recommendation Sample.engine Sample.ranked 2 (qc 1 100)
  = ([[VStr "A"; VStr "B"]; [VStr "B"; VStr "C"]; [VStr "C"; VStr "D"]],
     Ok None).
Proof.
  refine (proj1 (no_feasible_window_is_not_found Sample.engine Sample.ranked 2
                   (qc 1 100) Sample.window Sample.candidates _ _)).
  - intros j Hj. apply sample_answers. cbn in Hj. lia.
  - intros j Hj. cbn in Hj.
    destruct j as [|[|[|j]]]; [| | |lia];
      by_evaluation.
Defined.

Lemma exact_or_undersized_pool_witness :
  (∃ outcome,
     get_portfolio_recommendation Sample.engine
       [Sample.company "A"; Sample.company "B"] 2 (qc 15 100)
     = ([[VStr "A"; VStr "B"]], outcome)) ∧
  get_portfolio_recommendation Sample.engine [Sample.company "A"] 2 (qc 15 100)
  = ([], Ok None).
Proof.
  split.
  - apply (proj1 (exact_or_undersized_pool Sample.engine
                    [Sample.company "A"; Sample.company "B"] 2 (qc 15 100)));
      [reflexivity|by_vm].
  - apply (proj2 (exact_or_undersized_pool Sample.engine
                    [Sample.company "A"] 2 (qc 15 100))).
    cbn. lia.
Defined.

(** A pool of one company for a portfolio of two: no window is formed, no
    request is made, and the call returns [None]; it raises nothing, so in
    particular no invalid-input error. *)
Lemma undersized_pool_is_not_rejected :
  length [Sample.company "A"] < 2 ∧
  range (Z.of_nat (length [Sample.company "A"]) - Z.of_nat 2 + 1) = [] ∧
  get_portfolio_recommendation Sample.engine [Sample.company "A"] 2 (qc 15 100)
  = ([], Ok None) ∧
  ¬ (∃ e,
       (get_portfolio_recommendation Sample.engine [Sample.company "A"] 2
          (qc 15 100)).2 = Raise e ∧ InvalidInputError e).
Proof.
  split; [cbn; lia|]. split; [reflexivity|]. split; [reflexivity|].
  intros (e & He & _). discriminate He.
Qed.

Lemma sample_engine_contract tks result portfolios :
  Sample.engine tks = Ok result → result !! "data" = Some portfolios →
  Forall (λ p, length p = length tks + 2) portfolios.
Proof.
  unfold Sample.engine. repeat case_decide; subst; intros [= <-];
    rewrite lookup_singleton_eq; intros [= <-]; repeat constructor.
Qed.

Lemma recommended_portfolio_shape_witness :
  ∃ r,
    get_portfolio_recommendation Sample.engine Sample.ranked 2 (qc 15 100)
    = ([[VStr "A"; VStr "B"]; [VStr "B"; VStr "C"]], Ok (Some r)) ∧
    length (tickers r) = 2 ∧ length (proportions r) = 2 ∧
    length (companies r) = 2.
Proof.
  eexists. split; [exact sample_run|].
  destruct (recommended_portfolio_shape Sample.engine Sample.ranked 2 (qc 15 100)
              _ _ sample_engine_contract sample_run) as (H1 & H2 & H3 & _).
  auto.
Defined.

(** [GOOD] is enriched, the lookup for [BAD] raises, and the call returns
    [None] all the same. *)
Lemma enrichment_failure_is_swallowed_witness :
  returned (enrich_companies_data Sample.only_good
              [Sample.company "GOOD"; Sample.company "BAD"] ∅) = Ok None ∧
  printed (enrich_companies_data Sample.only_good
             [Sample.company "GOOD"; Sample.company "BAD"] ∅) = [AttributeError].
Proof.
  pose (run := enrich_loop Sample.only_good [Sample.company "GOOD"] ∅).
  pose (stop := enrich_company Sample.only_good (Sample.company "BAD") run.2).
  destruct (enrichment_failure_is_swallowed Sample.only_good
              [Sample.company "GOOD"] (Sample.company "BAD") [] ∅
              run.1.1 run.2 AttributeError stop.2)
    as (Hret & Hprinted & _).
  - by_vm.
  - by_vm.
  - split; [exact Hret|exact Hprinted].
Defined.

(** A lookup raises during enrichment, yet nothing is raised to the caller:
    the call returns [None], the value the selector returns when it finds no
    portfolio, and the first company was already updated in place. *)
Lemma enrichment_error_is_not_propagated :
  let cache1 := (enrich_loop Sample.only_good [Sample.company "GOOD"] ∅).2 in
  let r := enrich_companies_data Sample.only_good
             [Sample.company "GOOD"; Sample.company "BAD"] ∅ in
  (enrich_company Sample.only_good (Sample.company "BAD") cache1).1
    = Raise AttributeError ∧
  returned r = Ok None ∧
  ¬ (∃ e, returned r = Raise e) ∧
  is_None (returned r)
    = is_None (get_portfolio_recommendation Sample.engine [] 2 (qc 15 100)).2 ∧
  initial_companies_data r !! 1 = Some (Sample.company "BAD") ∧
  (c ← initial_companies_data r !! 0; c !! "e_score") = Some (VNum (qc 35 1)).
Proof.
  cbv zeta. split; [by_vm|].
  assert (returned (enrich_companies_data Sample.only_good
            [Sample.company "GOOD"; Sample.company "BAD"] ∅) = Ok None) as Hret
    by (by_vm).
  split; [exact Hret|]. split; [intros [e He]; congruence|].
  split; [by_vm|]. split; by_vm.
Qed.

(** * Further properties of the modelled code *)

(** ** [sorted(portfolios, key=lambda c: c[0], reverse=True)] *)

Lemma insert_desc_sorted {A} k (x : A) l :
  StronglySorted by_return_desc l →
  StronglySorted by_return_desc (insert_desc k x l).
Proof.
  induction 1 as [|[k' y] l Hl IH Hall]; cbn.
  - repeat constructor.
  - destruct (leb k' k) eqn:Hk.
    + apply leb_le in Hk. constructor; [by constructor|].
      constructor; [exact Hk|].
      eapply Forall_impl; [exact Hall|]. intros [k'' z] Hz.
      unfold by_return_desc in *. cbn in *. by eapply Qcle_trans.
    + apply leb_gt in Hk. constructor; [done|].
      apply insert_desc_Forall; [|done].
      unfold by_return_desc. cbn. by apply Qclt_le_weak.
Qed.

Lemma sort_desc_sorted {A} (l : list (Qc * A)) :
  StronglySorted by_return_desc (sort_desc l).
Proof.
  induction l as [|[k x] l IH]; [constructor|].
  rewrite sort_desc_cons. by apply insert_desc_sorted.
Qed.

Lemma filter_insert_desc {A} (k0 k : Qc) (x : A) l :
  filter (λ kx : Qc * A, kx.1 = k0) (insert_desc k x l)
  = filter (λ kx : Qc * A, kx.1 = k0) ((k, x) :: l).
Proof.
  induction l as [|[k' y] l IH]; cbn [insert_desc]; [done|].
  destruct (leb k' k) eqn:Hk; [done|]. apply leb_gt in Hk.
  rewrite filter_cons, IH, !filter_cons. cbn.
  destruct (decide (k' = k0)) as [->|]; [|done].
  destruct (decide (k = k0)) as [->|]; [|done].
  by apply Qclt_not_eq in Hk.
Qed.

Lemma filter_sort_desc {A} (k0 : Qc) (l : list (Qc * A)) :
  filter (λ kx : Qc * A, kx.1 = k0) (sort_desc l)
  = filter (λ kx : Qc * A, kx.1 = k0) l.
Proof.
  induction l as [|[k x] l IH]; [done|].
  by rewrite sort_desc_cons, filter_insert_desc, !filter_cons, IH.
Qed.

Lemma decorated_filter {A} (key : A → Qc) (k0 : Qc) (l : list (Qc * A)) :
  Forall (λ kx, kx.1 = key kx.2) l →
  filter (λ p, key p = k0) (l.*2)
  = (filter (λ kx : Qc * A, kx.1 = k0) l).*2.
Proof.
  induction 1 as [|[k x] l Hx Hl IH]; [done|].
  cbn [fmap list_fmap]. rewrite !filter_cons, IH. cbn in *. subst k.
  by destruct (decide (key x = k0)).
Qed.

Lemma decorated_sorted {A} (key : A → Qc) (l : list (Qc * A)) :
  Forall (λ kx, kx.1 = key kx.2) l →
  StronglySorted by_return_desc l →
  StronglySorted (λ p q, (key q ≤ key p)%Qc) (l.*2).
Proof.
  intros Hdec Hs. induction Hs as [|[k x] l Hl IH Hall]; [constructor|].
  apply Forall_cons in Hdec as [Hx Hdec]. cbn in Hx. subst k.
  cbn [fmap list_fmap]. constructor; [by apply IH|].
  apply Forall_fmap. rewrite Forall_forall in Hdec.
  apply Forall_forall. intros [k y] Hy.
  rewrite Forall_forall in Hall. specialize (Hall _ Hy).
  specialize (Hdec _ Hy). unfold by_return_desc in Hall. cbn in *. by subst k.
Qed.

Lemma mapM_index0_inv (l : list Portfolio) keys :
  mapM index0 l = Ok keys → Forall (λ p, p ≠ []) l.
Proof.
  intros H%mapM_res_Forall2. induction H as [|p k l ks Hp _ IH]; [constructor|].
  constructor; [|done]. by intros ->.
Qed.

Lemma mapM_index0_empty (l : list Portfolio) :
  [] ∈ l → mapM index0 l = Raise IndexError.
Proof.
  induction l as [|p l IH]; [by intros ?%elem_of_nil|].
  intros [<-|Hin]%elem_of_cons; [done|].
  cbn [mapM]. destruct p as [|x p]; [done|]. cbn. by rewrite IH.
Qed.

(** X1: sorting by return either raises [IndexError], exactly when some
    record is empty, or returns a permutation of its argument in which the
    returns never increase and records of equal return keep the order they
    had. *)
Theorem sorted_by_return_is_a_stable_sort (portfolios : list Portfolio) :
  ([] ∈ portfolios → sorted_by_return portfolios = Raise IndexError) ∧
  ([] ∉ portfolios →
     ∃ sorted_portfolio,
       sorted_by_return portfolios = Ok sorted_portfolio ∧
       sorted_portfolio ≡ₚ portfolios ∧
       StronglySorted (λ p q, (ret_of q ≤ ret_of p)%Qc) sorted_portfolio ∧
       ∀ k, filter (λ p, ret_of p = k) sorted_portfolio
            = filter (λ p, ret_of p = k) portfolios).
Proof.
  split.
  - intros Hin. unfold sorted_by_return. by rewrite (mapM_index0_empty _ Hin).
  - intros Hnin.
    assert (Forall (λ p, p ≠ []) portfolios) as Hne.
    { apply Forall_forall. by intros p Hp ->. }
    pose proof (sorted_by_return_spec _ Hne) as Hspec.
    eexists. split; [exact Hspec|].
    assert (Forall (λ kx : Qc * Portfolio, kx.1 = ret_of kx.2)
              (sort_desc ((λ p, (ret_of p, p)) <$> portfolios))) as Hdec.
    { apply sort_desc_Forall, Forall_fmap, Forall_forall. by intros. }
    split; [by apply sorted_by_return_perm|].
    split; [apply (decorated_sorted ret_of); [done|apply sort_desc_sorted]|].
    intros k. rewrite (decorated_filter ret_of _ _ Hdec), filter_sort_desc.
    rewrite <- (decorated_filter ret_of); [|apply Forall_fmap, Forall_forall; by intros].
    by rewrite <- list_fmap_compose, list_fmap_id.
Qed.

Lemma sorted_by_return_is_a_stable_sort_witness :
  sorted_by_return [[]; Sample.candidates_AB !!! 0] = Raise IndexError ∧
  ∃ sorted_portfolio,
    sorted_by_return Sample.candidates_BC = Ok sorted_portfolio ∧
    filter (λ p, ret_of p = qc 8 100) sorted_portfolio
    = filter (λ p, ret_of p = qc 8 100) Sample.candidates_BC.
Proof.
  split.
  - apply (proj1 (sorted_by_return_is_a_stable_sort _)). by left.
  - destruct (proj2 (sorted_by_return_is_a_stable_sort Sample.candidates_BC))
      as (s & Hs & _ & _ & Hst).
    + intros Hin. by repeat apply elem_of_cons in Hin as [|Hin];
        [..|apply elem_of_nil in Hin].
    + exists s. split; [exact Hs|apply Hst].
Defined.

Lemma sorted_by_return_head_max kept best rest :
  sorted_by_return kept = Ok (best :: rest) →
  ∀ p, p ∈ kept → (ret_of p ≤ ret_of best)%Qc.
Proof.
  intros Hs p Hp.
  assert (Forall (λ p, p ≠ []) kept) as Hne.
  { unfold sorted_by_return in Hs.
    destruct (mapM index0 kept) eqn:Hk; [|done]. by eapply mapM_index0_inv. }
  pose proof (sorted_by_return_perm _ _ Hne Hs) as Hperm.
  rewrite (sorted_by_return_spec _ Hne) in Hs. injection Hs as Hs.
  assert (StronglySorted (λ p q, (ret_of q ≤ ret_of p)%Qc) (best :: rest)) as Hsorted.
  { rewrite <- Hs. apply (decorated_sorted ret_of); [|apply sort_desc_sorted].
    apply sort_desc_Forall, Forall_fmap, Forall_forall. by intros. }
  rewrite <- Hperm in Hp. apply StronglySorted_inv in Hsorted as [_ Hall].
  apply elem_of_cons in Hp as [->|Hp]; [apply Qcle_refl|].
  rewrite Forall_forall in Hall. by apply Hall.
Qed.

(** ** More on [get_portfolio_recommendation] *)

Section SelectorInversion.
Variable get_portfolio_data : list value → res (gmap string (list Portfolio)).
Variables (ranked : list Company) (portfolio_size : nat) (risk_tolerance : Qc).

Lemma try_window_log i log o :
  try_window get_portfolio_data ranked portfolio_size risk_tolerance i = (log, o) →
  (∃ e, window_tickers ranked i portfolio_size = Raise e ∧ log = [] ∧ o = Raise e) ∨
  (∃ tks, window_tickers ranked i portfolio_size = Ok tks ∧ log = [tks]).
Proof.
  unfold try_window.
  destruct (window_tickers ranked i portfolio_size) as [tks|e];
    intros [= <- <-]; [right|left]; eauto.
Qed.

(** What is known of a window that returned a portfolio. *)
Lemma try_window_Some_best i log r :
  try_window get_portfolio_data ranked portfolio_size risk_tolerance i
  = (log, Ok (Some r)) →
  ∃ tks portfolios best,
    answers get_portfolio_data ranked portfolio_size i tks portfolios ∧
    log = [tks] ∧ best ∈ portfolios ∧ feasible risk_tolerance best ∧
    (∀ p, p ∈ portfolios → within_risk risk_tolerance p →
          (ret_of p ≤ ret_of best)%Qc) ∧
    r = window_portfolio ranked portfolio_size i tks best.
Proof.
  unfold try_window.
  destruct (window_tickers ranked i portfolio_size) as [tks|] eqn:Hwt; [|done].
  intros [= <- Hr]. revert Hr.
  destruct (get_portfolio_data tks) as [result|] eqn:Hreq; [|done]. res_step.
  unfold getitem at 1. destruct (result !! "data") as [portfolios|] eqn:Hd; [|done].
  res_step.
  destruct (risk_filter risk_tolerance portfolios) as [kept|] eqn:Hf; [|done].
  pose proof (risk_filter_Ok_inv _ _ _ Hf) as Hne.
  rewrite (risk_filter_spec _ _ Hne) in Hf. injection Hf as <-. res_step.
  destruct (sorted_by_return _) as [sorted_portfolio|] eqn:Hs; [|done]. res_step.
  destruct sorted_portfolio as [|best rest]; [done|].
  pose proof (sorted_by_return_head_max _ _ _ Hs) as Hmax.
  assert (best ∈ filter (within_risk risk_tolerance) portfolios) as Hin.
  { apply sorted_by_return_perm in Hs; [|by apply kept_nonempty].
    rewrite <- Hs. set_solver. }
  apply list_elem_of_filter in Hin as [Hrisk Hin].
  assert (best ≠ []) as Hb.
  { rewrite Forall_forall in Hne. by apply Hne. }
  rewrite (index0_nonempty _ Hb). res_step.
  destruct (ltb 0 (ret_of best)) eqn:Hpos; [|done].
  rewrite (index_last_nonempty _ Hb). res_step. intros [= <-].
  apply ltb_lt in Hpos. exists tks, portfolios, best.
  split; [by split; eauto|]. split; [done|]. split; [done|]. split; [done|].
  split; [|done]. intros p Hp Hpr. apply Hmax. by apply list_elem_of_filter.
Qed.

(** What is known of a window that fell through to the next one. *)
Lemma try_window_None_inv i log :
  try_window get_portfolio_data ranked portfolio_size risk_tolerance i
  = (log, Ok None) →
  ∃ tks portfolios,
    answers get_portfolio_data ranked portfolio_size i tks portfolios ∧
    log = [tks] ∧ Forall (λ p, ¬ feasible risk_tolerance p) portfolios.
Proof.
  unfold try_window.
  destruct (window_tickers ranked i portfolio_size) as [tks|] eqn:Hwt; [|done].
  intros [= <- Hr]. revert Hr.
  destruct (get_portfolio_data tks) as [result|] eqn:Hreq; [|done]. res_step.
  unfold getitem at 1. destruct (result !! "data") as [portfolios|] eqn:Hd; [|done].
  res_step.
  destruct (risk_filter risk_tolerance portfolios) as [kept|] eqn:Hf; [|done].
  pose proof (risk_filter_Ok_inv _ _ _ Hf) as Hne.
  rewrite (risk_filter_spec _ _ Hne) in Hf. injection Hf as <-. res_step.
  destruct (sorted_by_return _) as [sorted_portfolio|] eqn:Hs; [|done]. res_step.
  intros Hout. exists tks, portfolios. split; [by split; eauto|]. split; [done|].
  apply Forall_forall. intros p Hp [Hrisk Hpos].
  assert (p ∈ filter (within_risk risk_tolerance) portfolios) as Hk
    by by apply list_elem_of_filter.
  destruct sorted_portfolio as [|best rest].
  - apply sorted_by_return_perm in Hs; [|by apply kept_nonempty].
    rewrite <- Hs in Hk. by apply elem_of_nil in Hk.
  - pose proof (sorted_by_return_head_max _ _ _ Hs _ Hk) as Hmax.
    assert (best ≠ []) as Hb.
    { apply sorted_by_return_perm in Hs; [|by apply kept_nonempty].
      assert (best ∈ filter (within_risk risk_tolerance) portfolios) as Hbk
        by (rewrite <- Hs; set_solver).
      apply list_elem_of_filter in Hbk as [_ Hbk].
      rewrite Forall_forall in Hne. by apply Hne. }
    rewrite (index0_nonempty _ Hb) in Hout. revert Hout. res_step.
    destruct (ltb 0 (ret_of best)) eqn:Hb0.
    + by rewrite (index_last_nonempty _ Hb).
    + intros _. apply ltb_ge in Hb0.
      apply (Qclt_not_le _ _ Hpos). by eapply Qcle_trans.
Qed.

(** The loop stops at the first window that does not fall through. *)
Lemma search_inv offsets log o :
  search get_portfolio_data ranked portfolio_size risk_tolerance offsets
  = (log, o) →
  (o = Ok None ∧
   Forall2 (λ i tks,
     try_window get_portfolio_data ranked portfolio_size risk_tolerance i
     = ([tks], Ok None)) offsets log) ∨
  (∃ pre i post log_pre log_i,
     offsets = pre ++ i :: post ∧ o ≠ Ok None ∧ log = log_pre ++ log_i ∧
     Forall2 (λ j tks,
       try_window get_portfolio_data ranked portfolio_size risk_tolerance j
       = ([tks], Ok None)) pre log_pre ∧
     try_window get_portfolio_data ranked portfolio_size risk_tolerance i
     = (log_i, o)).
Proof.
  revert log. induction offsets as [|i rest IH]; intros log; cbn [search].
  { intros [= <- <-]. left. split; [done|constructor]. }
  destruct (try_window _ _ _ _ i) as [log_i oi] eqn:Htry.
  assert (oi ≠ Ok None → (log_i, oi) = (log, o) →
    ∃ pre i0 post log_pre log_i0,
      i :: rest = pre ++ i0 :: post ∧ o ≠ Ok None ∧ log = log_pre ++ log_i0 ∧
      Forall2 (λ j tks,
        try_window get_portfolio_data ranked portfolio_size risk_tolerance j
        = ([tks], Ok None)) pre log_pre ∧
      try_window get_portfolio_data ranked portfolio_size risk_tolerance i0
      = (log_i0, o)) as Hstop.
  { intros Hne [= <- <-]. exists [], i, rest, [], log_i.
    split; [done|]. split; [done|]. split; [done|]. split; [constructor|done]. }
  destruct oi as [[r|]|e]; [right; by apply Hstop| |right; by apply Hstop].
  destruct (try_window_None_inv _ _ Htry) as (tks & _ & _ & -> & _).
  destruct (search _ _ _ _ rest) as [log' o'] eqn:Hs. intros [= <- <-].
  destruct (IH _ eq_refl) as [[-> Hall]|(pre & j & post & lp & lj & -> & Hne & -> & Hpre & Hj)].
  - left. split; [done|]. by constructor.
  - right. exists (i :: pre), j, post, (tks :: lp), lj.
    split; [done|]. split; [done|]. split; [done|]. split; [by constructor|done].
Qed.

(** X2: a returned portfolio is feasible (its risk is within the tolerance
    and its return is positive), it is a record of the answer to the tickers
    it names, and no record of that answer within the tolerance returns
    more. *)
Theorem returned_portfolio_is_feasible_and_best log r :
  get_portfolio_recommendation get_portfolio_data ranked portfolio_size
    risk_tolerance = (log, Ok (Some r)) →
  (risk r ≤ risk_tolerance)%Qc ∧ (0 < return_ r)%Qc ∧
  ∃ result portfolios best,
    get_portfolio_data (tickers r) = Ok result ∧
    result !! "data" = Some portfolios ∧
    best ∈ portfolios ∧
    ret_of best = return_ r ∧ risk_of best = risk r ∧
    ∀ p, p ∈ portfolios → (risk_of p ≤ risk_tolerance)%Qc →
         (ret_of p ≤ return_ r)%Qc.
Proof.
  unfold get_portfolio_recommendation.
  intros [[? _]|(pre & i & post & lp & li & _ & _ & _ & _ & Htry)]%search_inv;
    [done|].
  apply try_window_Some_best in Htry
    as (tks & portfolios & best & Hans & _ & Hin & [Hrisk Hpos] & Hmax & ->).
  destruct Hans as (_ & result & Hreq & Hd & _). cbn.
  split; [done|]. split; [done|]. by exists result, portfolios, best.
Qed.

Lemma range_lookup (n : Z) (i : nat) :
  (Z.of_nat i < n)%Z → range n !! i = Some i.
Proof. intros Hi. unfold range. apply lookup_seq. lia. Qed.

(** X3: when the call returns [None], every window of the range was
    requested, once and in order, each request was answered with non-empty
    records, and no record of any answer was feasible. *)
Theorem not_found_means_no_feasible_window log :
  get_portfolio_recommendation get_portfolio_data ranked portfolio_size
    risk_tolerance = (log, Ok None) →
  length log
  = Z.to_nat (Z.of_nat (length ranked) - Z.of_nat portfolio_size + 1) ∧
  ∀ i, (Z.of_nat i ≤ Z.of_nat (length ranked) - Z.of_nat portfolio_size)%Z →
    ∃ tks portfolios,
      log !! i = Some tks ∧
      answers get_portfolio_data ranked portfolio_size i tks portfolios ∧
      Forall (λ p, ¬ feasible risk_tolerance p) portfolios.
Proof.
  unfold get_portfolio_recommendation.
  intros [[_ Hall]|(? & ? & ? & ? & ? & _ & Hne & _)]%search_inv; [|done].
  split.
  { apply Forall2_length in Hall. rewrite <- Hall. unfold range.
    by rewrite length_seq. }
  intros i Hi.
  destruct (Forall2_lookup_l _ _ _ i i Hall) as (tks & Htks & Htry).
  { apply range_lookup. lia. }
  apply try_window_None_inv in Htry as (tks' & portfolios & Hans & [= <-] & Hinf).
  by exists tks, portfolios.
Qed.

End SelectorInversion.

Lemma returned_portfolio_is_feasible_and_best_witness :
  ∃ r,
    get_portfolio_recommendation Sample.engine Sample.ranked 2 (qc 15 100)
    = ([[VStr "A"; VStr "B"]; [VStr "B"; VStr "C"]], Ok (Some r)) ∧
    (risk r ≤ qc 15 100)%Qc ∧ (0 < return_ r)%Qc.
Proof.
  eexists. split; [exact sample_run|].
  destruct (returned_portfolio_is_feasible_and_best Sample.engine Sample.ranked
              2 (qc 15 100) _ _ sample_run) as (H1 & H2 & _).
  split; [exact H1|exact H2].
Defined.

Lemma sample_not_found :
  get_portfolio_recommendation Sample.engine Sample.ranked 2 (qc 1 100)
  = ([[VStr "A"; VStr "B"]; [VStr "B"; VStr "C"]; [VStr "C"; VStr "D"]],
     Ok None).
Proof. by_vm. Qed.

Lemma not_found_means_no_feasible_window_witness :
  ∃ tks portfolios,
    answers Sample.engine Sample.ranked 2 1 tks portfolios ∧
    Forall (λ p, ¬ feasible (qc 1 100) p) portfolios.
Proof.
  destruct (not_found_means_no_feasible_window Sample.engine Sample.ranked 2
              (qc 1 100) _ sample_not_found) as [_ Hall].
  destruct (Hall 1) as (tks & portfolios & _ & Hans & Hinf); [cbn; lia|].
  by exists tks, portfolios.
Defined.

Section SelectorErrors.
Variable get_portfolio_data : list value → res (gmap string (list Portfolio)).
Variables (ranked : list Company) (portfolio_size : nat) (risk_tolerance : Qc).

Lemma search_first_stop (tks : nat → list value) pre i post log_i o :
  (∀ j, j ∈ pre →
     try_window get_portfolio_data ranked portfolio_size risk_tolerance j
     = ([tks j], Ok None)) →
  try_window get_portfolio_data ranked portfolio_size risk_tolerance i
  = (log_i, o) →
  o ≠ Ok None →
  search get_portfolio_data ranked portfolio_size risk_tolerance
    (pre ++ i :: post)
  = ((tks <$> pre) ++ log_i, o).
Proof.
  intros Hpre Hi Ho. induction pre as [|j pre IH]; cbn [app search fmap list_fmap].
  - rewrite Hi. by destruct o as [[?|]|?].
  - rewrite Hpre by set_solver. rewrite IH by set_solver. done.
Qed.

(** The run up to a window [i] of the range that does not fall through,
    when the windows before it are answered and have nothing feasible. *)
Lemma stop_at_window (tks : nat → list value) (pfs : nat → list Portfolio)
    i log_i o :
  (Z.of_nat i ≤ Z.of_nat (length ranked) - Z.of_nat portfolio_size)%Z →
  (∀ j, j < i →
     answers get_portfolio_data ranked portfolio_size j (tks j) (pfs j)) →
  (∀ j, j < i → Forall (λ p, ¬ feasible risk_tolerance p) (pfs j)) →
  try_window get_portfolio_data ranked portfolio_size risk_tolerance i
  = (log_i, o) →
  o ≠ Ok None →
  get_portfolio_recommendation get_portfolio_data ranked portfolio_size
    risk_tolerance
  = ((tks <$> seq 0 i) ++ log_i, o).
Proof.
  intros Hi Hans Hinf Htry Ho. unfold get_portfolio_recommendation.
  destruct (range_split (Z.of_nat (length ranked) - Z.of_nat portfolio_size + 1) i)
    as (post & ->); [lia|].
  apply search_first_stop; [|done..].
  intros j Hj%elem_of_seq. apply try_window_infeasible with (pfs j).
  - apply Hans. lia.
  - apply Hinf. lia.
Qed.

Lemma risk_filter_empty_record portfolios :
  [] ∈ portfolios → risk_filter risk_tolerance portfolios = Raise IndexError.
Proof.
  induction portfolios as [|p ps IH]; [by intros ?%elem_of_nil|].
  intros [<-|Hin]%elem_of_cons; [done|].
  cbn [risk_filter]. unfold index_last. destruct (last p); [|done].
  res_step. by rewrite IH.
Qed.

Lemma window_tickers_missing i :
  (∃ c : Company, c ∈ slice i (i + portfolio_size) ranked ∧ c !! "ticker" = None) →
  window_tickers ranked i portfolio_size = Raise (KeyError "ticker").
Proof.
  unfold window_tickers. generalize (slice i (i + portfolio_size) ranked).
  intros l (c & Hin & Hc). induction l as [|c0 l IH]; [by apply elem_of_nil in Hin|].
  cbn [mapM].
  destruct (c0 !! "ticker") as [t|] eqn:Ht;
    [rewrite (getitem_Some _ _ _ Ht)|by rewrite (getitem_None _ _ Ht)].
  res_step.
  apply elem_of_cons in Hin as [->|Hin]; [congruence|]. by rewrite IH.
Qed.

(** X4: a failed request aborts the whole selection.  When the windows before
    offset [i] had nothing feasible and the request for window [i] raises
    [e], the call raises [e]; windows 0 to [i] were requested and no later
    window is tried. *)
Theorem analytics_failure_aborts_selection
    (tks : nat → list value) (pfs : nat → list Portfolio) i e :
  (Z.of_nat i ≤ Z.of_nat (length ranked) - Z.of_nat portfolio_size)%Z →
  (∀ j, j < i →
     answers get_portfolio_data ranked portfolio_size j (tks j) (pfs j)) →
  (∀ j, j < i → Forall (λ p, ¬ feasible risk_tolerance p) (pfs j)) →
  window_tickers ranked i portfolio_size = Ok (tks i) →
  get_portfolio_data (tks i) = Raise e →
  get_portfolio_recommendation get_portfolio_data ranked portfolio_size
    risk_tolerance
  = (tks <$> seq 0 (S i), Raise e).
Proof.
  intros Hi Hans Hinf Hwt Hreq. rewrite seq_S, fmap_app.
  apply stop_at_window with pfs; [done..| |done].
  unfold try_window. by rewrite Hwt, Hreq.
Qed.

(** X5: a malformed answer raises even when it holds a feasible candidate.
    When the answer for window [i] has no ["data"] entry the call raises
    [KeyError]; when one of its records is empty the call raises
    [IndexError], whatever the other records are. *)
Theorem malformed_answer_raises
    (tks : nat → list value) (pfs : nat → list Portfolio) i result :
  (Z.of_nat i ≤ Z.of_nat (length ranked) - Z.of_nat portfolio_size)%Z →
  (∀ j, j < i →
     answers get_portfolio_data ranked portfolio_size j (tks j) (pfs j)) →
  (∀ j, j < i → Forall (λ p, ¬ feasible risk_tolerance p) (pfs j)) →
  window_tickers ranked i portfolio_size = Ok (tks i) →
  get_portfolio_data (tks i) = Ok result →
  (result !! "data" = None →
     get_portfolio_recommendation get_portfolio_data ranked portfolio_size
       risk_tolerance
     = (tks <$> seq 0 (S i), Raise (KeyError "data"))) ∧
  (∀ portfolios, result !! "data" = Some portfolios → [] ∈ portfolios →
     get_portfolio_recommendation get_portfolio_data ranked portfolio_size
       risk_tolerance
     = (tks <$> seq 0 (S i), Raise IndexError)).
Proof.
  intros Hi Hans Hinf Hwt Hreq. rewrite seq_S, fmap_app. split.
  - intros Hd. apply stop_at_window with pfs; [done..| |done].
    unfold try_window. rewrite Hwt, Hreq. res_step.
    by rewrite (getitem_None _ _ Hd).
  - intros portfolios Hd Hin. apply stop_at_window with pfs; [done..| |done].
    unfold try_window. rewrite Hwt, Hreq. res_step.
    rewrite (getitem_Some _ _ _ Hd). res_step.
    by rewrite (risk_filter_empty_record _ Hin).
Qed.

(** X6: a company without a ["ticker"] entry in window [i] makes the call
    raise [KeyError] when the loop reaches that window, before any request
    for it: only windows 0 to [i - 1] were requested. *)
Theorem company_without_ticker_raises
    (tks : nat → list value) (pfs : nat → list Portfolio) i (c : Company) :
  (Z.of_nat i ≤ Z.of_nat (length ranked) - Z.of_nat portfolio_size)%Z →
  (∀ j, j < i →
     answers get_portfolio_data ranked portfolio_size j (tks j) (pfs j)) →
  (∀ j, j < i → Forall (λ p, ¬ feasible risk_tolerance p) (pfs j)) →
  c ∈ slice i (i + portfolio_size) ranked →
  c !! "ticker" = None →
  get_portfolio_recommendation get_portfolio_data ranked portfolio_size
    risk_tolerance
  = (tks <$> seq 0 i, Raise (KeyError "ticker")).
Proof.
  intros Hi Hans Hinf Hin Hc.
  rewrite <- (app_nil_r (tks <$> seq 0 i)).
  apply stop_at_window with pfs; [done..| |done].
  unfold try_window. rewrite window_tickers_missing; [done|]. eauto.
Qed.

(** X7: whatever the outcome, the requests made are those of the windows at
    offsets 0, 1, ... without a gap; each names exactly [portfolio_size]
    tickers of a window that fits in the list, and there are at most
    [len(companies) - portfolio_size + 1] of them. *)
Theorem requests_are_full_windows log o :
  get_portfolio_recommendation get_portfolio_data ranked portfolio_size
    risk_tolerance = (log, o) →
  length log
  ≤ Z.to_nat (Z.of_nat (length ranked) - Z.of_nat portfolio_size + 1) ∧
  ∀ k tks, log !! k = Some tks →
    window_tickers ranked k portfolio_size = Ok tks ∧
    length tks = portfolio_size ∧
    k + portfolio_size ≤ length ranked.
Proof.
  unfold get_portfolio_recommendation.
  set (n := (Z.of_nat (length ranked) - Z.of_nat portfolio_size + 1)%Z).
  intros Hrun.
  assert (∀ k tks, (Z.of_nat k < n)%Z →
            window_tickers ranked k portfolio_size = Ok tks →
            window_tickers ranked k portfolio_size = Ok tks ∧
            length tks = portfolio_size ∧ k + portfolio_size ≤ length ranked)
    as Hfull.
  { intros k tks Hk Hwt. split; [done|]. split; [|lia].
    apply mapM_res_Forall2, Forall2_length in Hwt. rewrite <- Hwt.
    unfold slice. rewrite length_take, length_drop. lia. }
  apply search_inv in Hrun
    as [[_ Hall]|(pre & i & post & lp & li & Hoff & _ & -> & Hpre & Hi)].
  - split.
    { apply Forall2_length in Hall. rewrite <- Hall. unfold range.
      by rewrite length_seq. }
    intros k tks Hk.
    destruct (Forall2_lookup_r _ _ _ k tks Hall Hk) as (j & Hj & Htry).
    unfold range in Hj. apply lookup_seq in Hj as [-> Hlt]. cbn in Htry.
    apply try_window_log in Htry as [(e & _ & ? & _)|(tks' & Hwt & [= <-])];
      [done|].
    apply Hfull; [lia|done].
  - pose proof (Forall2_length _ _ _ Hpre) as Hlen.
    assert (∀ k j, (pre ++ [i]) !! k = Some j → j = k ∧ (Z.of_nat k < n)%Z)
      as Hidx.
    { intros k j Hk.
      assert (range n !! k = Some j) as Hr.
      { rewrite Hoff. change (i :: post) with ([i] ++ post).
        rewrite (assoc_L (++)). by apply lookup_app_l_Some. }
      unfold range in Hr. apply lookup_seq in Hr as [-> Hlt]. lia. }
    apply try_window_log in Hi as [(e & _ & -> & _)|(tks_i & Hwt & ->)].
    + split.
      { rewrite app_nil_r, <- Hlen.
        pose proof (f_equal length Hoff) as Hl. unfold range in Hl.
        rewrite length_seq, length_app in Hl. cbn in Hl. lia. }
      intros k tks Hk. rewrite app_nil_r in Hk.
      destruct (Forall2_lookup_r _ _ _ k tks Hpre Hk) as (j & Hj & Htry).
      destruct (Hidx k j) as [-> Hlt]; [by apply lookup_app_l_Some|].
      apply try_window_log in Htry as [(e' & _ & ? & _)|(tks' & Hwt & [= <-])];
        [done|].
      by apply Hfull.
    + split.
      { rewrite length_app. cbn. rewrite <- Hlen.
        pose proof (f_equal length Hoff) as Hl. unfold range in Hl.
        rewrite length_seq, length_app in Hl. cbn in Hl. lia. }
      intros k tks Hk. apply lookup_app_Some in Hk as [Hk|[Hge Hk]].
      * destruct (Forall2_lookup_r _ _ _ k tks Hpre Hk) as (j & Hj & Htry).
        destruct (Hidx k j) as [-> Hlt]; [by apply lookup_app_l_Some|].
        apply try_window_log in Htry as [(e' & _ & ? & _)|(tks' & Hwt' & [= <-])];
          [done|].
        by apply Hfull.
      * apply list_lookup_singleton_Some in Hk as [Hk <-].
        assert (k = length lp) as -> by lia.
        destruct (Hidx (length lp) i) as [-> Hlt].
        { rewrite <- Hlen. by rewrite list_lookup_middle. }
        by apply Hfull.
Qed.

End SelectorErrors.

Section RiskTolerance.
Variable get_portfolio_data : list value → res (gmap string (list Portfolio)).
Variables (ranked : list Company) (portfolio_size : nat).

Lemma try_window_answered risk_tolerance i tks portfolios :
  answers get_portfolio_data ranked portfolio_size i tks portfolios →
  ∃ o, try_window get_portfolio_data ranked portfolio_size risk_tolerance i
       = ([tks], Ok o).
Proof.
  intros Hans.
  destruct (filter (within_risk risk_tolerance) portfolios) as [|p l] eqn:Hk.
  { exists None. by eapply try_window_empty. }
  destruct (first_best_exists (p :: l)) as (best & Hbest); [done|].
  rewrite <- Hk in Hbest.
  rewrite (try_window_best _ _ _ _ _ _ _ _ Hans Hbest).
  destruct (ltb 0 (ret_of best)); eauto.
Qed.

Lemma search_answered_prefix risk_tolerance pre log_pre i post tks_i r :
  Forall2 (λ j tks, ∃ portfolios,
    answers get_portfolio_data ranked portfolio_size j tks portfolios)
    pre log_pre →
  try_window get_portfolio_data ranked portfolio_size risk_tolerance i
  = ([tks_i], Ok (Some r)) →
  ∃ log r',
    search get_portfolio_data ranked portfolio_size risk_tolerance
      (pre ++ i :: post) = (log, Ok (Some r')) ∧
    log `prefix_of` log_pre ++ [tks_i] ∧
    (log = log_pre ++ [tks_i] → r' = r).
Proof.
  intros Hpre Hi. induction Hpre as [|j tks pre log_pre [ps Hans] _ IH];
    cbn [app search].
  - rewrite Hi. by exists [tks_i], r.
  - destruct (try_window_answered risk_tolerance _ _ _ Hans) as [[r0|] ->].
    + exists [tks], r0. split; [done|]. split.
      * apply prefix_cons, prefix_nil.
      * intros [= Hnil]. by destruct log_pre.
    + destruct IH as (log & r' & -> & Hprefix & Hsame).
      exists (tks :: log), r'. split; [done|]. split; [by apply prefix_cons|].
      intros [= ->]. by apply Hsame.
Qed.

(** X8: raising the risk tolerance never loses a portfolio.  When the call
    returns a portfolio under [tolerance], it returns one under every larger
    tolerance too, after a prefix of the same requests; when that prefix is
    the whole sequence, the new return is at least the old one. *)
Theorem higher_tolerance_keeps_success tolerance tolerance' log r :
  (tolerance ≤ tolerance')%Qc →
  get_portfolio_recommendation get_portfolio_data ranked portfolio_size
    tolerance = (log, Ok (Some r)) →
  ∃ log' r',
    get_portfolio_recommendation get_portfolio_data ranked portfolio_size
      tolerance' = (log', Ok (Some r')) ∧
    log' `prefix_of` log ∧
    (log' = log → (return_ r ≤ return_ r')%Qc).
Proof.
  intros Hle. unfold get_portfolio_recommendation.
  intros [[? _]|(pre & i & post & lp & li & -> & _ & -> & Hpre & Htry)]%search_inv;
    [done|].
  apply try_window_Some_best in Htry
    as (tks & portfolios & best & Hans & -> & Hin & [Hrisk Hpos] & _ & ->).
  assert (within_risk tolerance' best) as Hrisk'.
  { unfold within_risk in *. by eapply Qcle_trans. }
  destruct (try_window_feasible get_portfolio_data ranked portfolio_size
              tolerance' i tks portfolios Hans) as (best' & Hbest' & _ & Htry').
  { apply Exists_exists. by exists best. }
  edestruct (search_answered_prefix tolerance' pre lp i post tks) as
    (log' & r' & Hrun & Hprefix & Hsame); [|exact Htry'|].
  { eapply Forall2_impl; [exact Hpre|]. intros j tks' Hj.
    apply try_window_None_inv in Hj as (tks'' & ps & Hans' & [= <-] & _).
    by exists ps. }
  exists log', r'. split; [done|]. split; [done|].
  intros Heq. rewrite (Hsame Heq). cbn.
  eapply first_best_max; [exact Hbest'|]. by apply list_elem_of_filter.
Qed.

End RiskTolerance.

(** ** The further properties on the sample data *)

Lemma sample_first_window engine ranked :
  window_tickers ranked 0 2 = Ok (Sample.window 0) →
  engine (Sample.window 0) = Ok {[ "data" := Sample.candidates_AB ]} →
  ∀ j, j < 1 → answers engine ranked 2 j (Sample.window j) (Sample.candidates j).
Proof.
  intros Hwt Heng j Hj. assert (j = 0) as -> by lia.
  split; [done|]. exists {[ "data" := Sample.candidates_AB ]}.
  split; [done|]. split; [apply lookup_singleton_eq|].
  repeat constructor; discriminate.
Qed.

Lemma sample_first_window_infeasible j :
  j < 1 → Forall (λ p, ¬ feasible (qc 15 100) p) (Sample.candidates j).
Proof. intros Hj. assert (j = 0) as -> by lia. by_evaluation. Qed.

Lemma analytics_failure_aborts_selection_witness :
  get_portfolio_recommendation Sample.engine_down Sample.ranked 2 (qc 15 100)
  = ([[VStr "A"; VStr "B"]; [VStr "B"; VStr "C"]], Raise HTTPError).
Proof.
  apply (analytics_failure_aborts_selection Sample.engine_down Sample.ranked 2
           (qc 15 100) Sample.window Sample.candidates 1 HTTPError).
  - cbn. lia.
  - apply sample_first_window; by_vm.
  - apply sample_first_window_infeasible.
  - by_vm.
  - by_vm.
Defined.

Lemma malformed_answer_raises_witness :
  get_portfolio_recommendation Sample.engine_no_data Sample.ranked 2 (qc 15 100)
  = ([[VStr "A"; VStr "B"]; [VStr "B"; VStr "C"]], Raise (KeyError "data")) ∧
  get_portfolio_recommendation Sample.engine_empty_record Sample.ranked 2
    (qc 15 100)
  = ([[VStr "A"; VStr "B"]; [VStr "B"; VStr "C"]], Raise IndexError).
Proof.
  split.
  - apply (proj1 (malformed_answer_raises Sample.engine_no_data Sample.ranked 2
                    (qc 15 100) Sample.window Sample.candidates 1 ∅
                    ltac:(cbn; lia)
                    (sample_first_window _ _ ltac:(by_vm) ltac:(by_vm))
                    sample_first_window_infeasible
                    ltac:(by_vm) ltac:(by_vm))).
    apply lookup_empty.
  - apply (proj2 (malformed_answer_raises Sample.engine_empty_record
                    Sample.ranked 2 (qc 15 100) Sample.window Sample.candidates 1
                    {[ "data" := [[]; [qc 8 100; qc 1 2; qc 1 2; qc 1 10]] ]}
                    ltac:(cbn; lia)
                    (sample_first_window _ _ ltac:(by_vm) ltac:(by_vm))
                    sample_first_window_infeasible
                    ltac:(by_vm) ltac:(by_vm))
             [[]; [qc 8 100; qc 1 2; qc 1 2; qc 1 10]]).
    + apply lookup_singleton_eq.
    + by left.
Defined.

Lemma company_without_ticker_raises_witness :
  get_portfolio_recommendation Sample.engine Sample.ranked_missing 2 (qc 15 100)
  = ([[VStr "A"; VStr "B"]], Raise (KeyError "ticker")).
Proof.
  apply (company_without_ticker_raises Sample.engine Sample.ranked_missing 2
           (qc 15 100) Sample.window Sample.candidates 1 {[ "name" := VStr "C" ]}).
  - cbn. lia.
  - apply sample_first_window; by_vm.
  - apply sample_first_window_infeasible.
  - apply list_elem_of_lookup. by exists 1.
  - by_vm.
Defined.

Lemma requests_are_full_windows_witness :
  length [[VStr "A"; VStr "B"]; [VStr "B"; VStr "C"]]
  ≤ Z.to_nat (Z.of_nat (length Sample.ranked) - Z.of_nat 2 + 1).
Proof.
  exact (proj1 (requests_are_full_windows Sample.engine Sample.ranked 2
                  (qc 15 100) _ _ sample_run)).
Defined.

Lemma higher_tolerance_keeps_success_witness :
  ∃ log' r',
    get_portfolio_recommendation Sample.engine Sample.ranked 2 (qc 16 100)
    = (log', Ok (Some r')) ∧
    log' `prefix_of` [[VStr "A"; VStr "B"]; [VStr "B"; VStr "C"]].
Proof.
  destruct (higher_tolerance_keeps_success Sample.engine Sample.ranked 2
              (qc 15 100) (qc 16 100) _ _ ltac:(by_evaluation) sample_run)
    as (log' & r' & Hrun & Hprefix & _).
  by exists log', r'.
Defined.

(** ** More on the repository *)

Section RepositoryMore.
Variable yf_Ticker : string → Ticker.

Lemma get_esg_score_inv ticker cache r cache' :
  get_esg_score yf_Ticker ticker cache = (r, cache') →
  (cache' = cache ∧
   ((∃ s stock, ticker = VStr s ∧ cache !! s = Some stock ∧
                r = Ok (sustainability stock)) ∨
    cached cache ticker = None ∧ (r = Ok None ∨ ∃ e, r = Raise e))) ∨
  (∃ s df, ticker = VStr s ∧ cache !! s = None ∧
           sustainability (yf_Ticker s) = Some df ∧ df_empty df = false ∧
           r = Ok (Some df) ∧ cache' = <[s := yf_Ticker s]> cache).
Proof.
  unfold get_esg_score.
  destruct (cached cache ticker) as [stock|] eqn:Hc.
  { apply (cached_Some yf_Ticker) in Hc as (s & -> & Hs). intros [= <- <-].
    left. split; [done|]. left. by exists s, stock. }
  destruct ticker as [|s|q]; cbn [new_Ticker];
    try (intros [= <- <-]; left; split; [done|]; right; split; [done|]; eauto).
  destruct (sustainability (yf_Ticker s)) as [df|] eqn:Hs;
    [|intros [= <- <-]; left; split; [done|]; right; split; [done|]; eauto].
  destruct (df_empty df) eqn:Hdf; intros [= <- <-].
  - left. split; [done|]. right. split; [done|]. by left.
  - right. by exists s, df.
Qed.

Lemma risk_to_score_cache ticker field cache r cache' :
  risk_to_score yf_Ticker ticker field cache = (r, cache') →
  ∃ r0, get_esg_score yf_Ticker ticker cache = (r0, cache').
Proof.
  unfold risk_to_score, mbind, Repo_bind, repo_bind, repo_lift.
  destruct (get_esg_score yf_Ticker ticker cache) as [[response|e] c];
    intros [= _ <-]; eauto.
Qed.

Lemma get_controversies_cache ticker cache r cache' :
  get_controversies yf_Ticker ticker cache = (r, cache') →
  ∃ r0, get_esg_score yf_Ticker ticker cache = (r0, cache').
Proof.
  unfold get_controversies, mbind, Repo_bind, repo_bind, repo_lift.
  destruct (get_esg_score yf_Ticker ticker cache) as [[response|e] c];
    intros [= _ <-]; eauto.
Qed.

Lemma parse_response_cases response field default_value v :
  _parse_response response field default_value = Ok v →
  v = default_value ∨ truthy v = true.
Proof.
  unfold _parse_response. destruct response as [df|]; [|intros [= <-]; by left].
  destruct (df_empty df); [intros [= <-]; by left|].
  unfold getitem. destruct (df !! field) as [x|]; [|done]. res_step.
  destruct (truthy x) eqn:Hx; intros [= <-]; eauto.
Qed.

Lemma Qc_nonzero_truthy q : truthy (VNum q) = true → q ≠ 0%Qc.
Proof. intros Hq ->. by vm_compute in Hq. Qed.

Lemma risk_to_score_never_max ticker field cache v cache' :
  risk_to_score yf_Ticker ticker field cache = (Ok v, cache') →
  ∃ q, v = VNum q ∧ q ≠ MAX_RISK_SCORE.
Proof.
  unfold risk_to_score, mbind, Repo_bind, repo_bind, repo_lift.
  destruct (get_esg_score yf_Ticker ticker cache) as [[response|e] c]; [|done].
  destruct (_parse_response response field (VNum MAX_RISK_SCORE)) as [x|] eqn:Hp;
    [|done].
  res_step. intros [= Hsub <-].
  destruct x as [|s|y]; try done. injection Hsub as <-. eexists. split; [done|].
  apply parse_response_cases in Hp as [[= ->]|Hy].
  - intros H. apply (f_equal (λ q : Qc, Qeq_bool q 0)) in H.
    by vm_compute in H.
  - apply Qc_nonzero_truthy in Hy. intros H. apply Hy.
    assert (y = MAX_RISK_SCORE - (MAX_RISK_SCORE - y))%Qc as -> by ring.
    rewrite H. ring.
Qed.


(** X10: [get_controversies] never answers 0, [None] or an empty string: a raw
    controversy level of 0 is answered as the default 10. *)
Theorem controversies_are_never_zero ticker cache :
  (∀ v cache',
     get_controversies yf_Ticker ticker cache = (Ok v, cache') →
     truthy v = true ∧ v ≠ VNum 0%Qc) ∧
  (∀ df cache',
     get_esg_score yf_Ticker ticker cache = (Ok (Some df), cache') →
     df !! "highestControversy" = Some (VNum 0%Qc) →
     get_controversies yf_Ticker ticker cache = (Ok (VNum (qc 10 1)), cache')).
Proof.
  split.
  - intros v cache'.
    unfold get_controversies, mbind, Repo_bind, repo_bind, repo_lift.
    destruct (get_esg_score yf_Ticker ticker cache) as [[response|e] c]; [|done].
    destruct (_parse_response _ _ _) as [x|] eqn:Hp; [|done].
    intros [= <- <-].
    assert (truthy x = true) as Hx.
    { by apply parse_response_cases in Hp as [->|Hx]. }
    split; [done|]. by intros ->.
  - intros df cache' Hesg Hf.
    unfold get_controversies, mbind, Repo_bind, repo_bind, repo_lift.
    rewrite Hesg. unfold _parse_response.
    by rewrite (df_empty_false _ _ _ Hf), (getitem_Some _ _ _ Hf).
Qed.

(** X11: [get_esg_score] changes the cache only by adding the requested ticker, and
    only when that ticker was not cached and has a non-empty ESG frame:
    missing data and exceptions are never cached. *)
Theorem only_tickers_with_data_are_cached ticker cache r cache' :
  get_esg_score yf_Ticker ticker cache = (r, cache') →
  (cache' = cache ∨
   ∃ s df, ticker = VStr s ∧ cache !! s = None ∧
           cache' = <[s := yf_Ticker s]> cache ∧
           r = Ok (Some df) ∧ df ≠ ∅) ∧
  (r = Ok None ∨ (∃ e, r = Raise e) → cache' = cache).
Proof.
  intros [[-> _]|(s & df & -> & Hs & Hsus & Hdf & -> & ->)]%get_esg_score_inv.
  - split; [by left|done].
  - split.
    + right. exists s, df. repeat split; [done..|].
      intros ->. by vm_compute in Hdf.
    + intros [?|[e ?]]; done.
Qed.

(** X12: once [get_esg_score] has answered a frame for a ticker, the ticker is
    in the cache, and asking again for its frame or its sector answers from
    the cache: the answer does not depend on the data source any more and
    the cache stays as it is. *)
Theorem cached_ticker_is_served_from_cache ticker cache df cache' :
  get_esg_score yf_Ticker ticker cache = (Ok (Some df), cache') →
  ∃ s stock,
    ticker = VStr s ∧ cache' !! s = Some stock ∧
    sustainability stock = Some df ∧
    ∀ yf_Ticker' : string → Ticker,
      get_esg_score yf_Ticker' ticker cache' = (Ok (Some df), cache') ∧
      get_sector yf_Ticker' ticker cache' = (Ok (info_sector stock), cache').
Proof.
  intros [[-> [(s & stock & -> & Hs & [= Hdf])|[_ [?|[? ?]]]]]
         |(s & df' & -> & Hs & Hsus & Hdf & [= ->] & ->)]%get_esg_score_inv;
    try done.
  - exists s, stock. repeat split; [done..| |].
    + unfold get_esg_score. cbn. by rewrite Hs, Hdf.
    + unfold get_sector. cbn. by rewrite Hs.
  - exists s, (yf_Ticker s). rewrite lookup_insert_eq. repeat split; [done| |].
    + unfold get_esg_score. cbn. by rewrite lookup_insert_eq, Hsus.
    + unfold get_sector. cbn. by rewrite lookup_insert_eq.
Qed.

End RepositoryMore.

(** ** More on the enrichment *)

Section EnricherMore.
Variable yf_Ticker : string → Ticker.

Lemma preserves_bind {A B} (m : Repo A) (k : A → Repo B) :
  preserves_cache_ok m → (∀ a, preserves_cache_ok (k a)) →
  preserves_cache_ok (m ≫= k).
Proof.
  intros Hm Hk cache Hok. unfold mbind, Repo_bind, repo_bind.
  specialize (Hm cache Hok). destruct (m cache) as [[a|e] cache1]; [|done].
  by apply Hk.
Qed.

Lemma preserves_lift {A} (r : res A) : preserves_cache_ok (repo_lift r).
Proof. by intros cache Hok. Qed.

Lemma preserves_ret {A} (a : A) : preserves_cache_ok (mret a : Repo A).
Proof. by intros cache Hok. Qed.

Lemma preserves_get_esg_score ticker :
  preserves_cache_ok (get_esg_score yf_Ticker ticker).
Proof.
  intros cache Hok.
  destruct (get_esg_score yf_Ticker ticker cache) as [r cache'] eqn:H.
  by eapply get_esg_score_cache_ok.
Qed.

Lemma preserves_get_sector ticker :
  preserves_cache_ok (get_sector yf_Ticker ticker).
Proof.
  intros cache Hok.
  destruct (get_sector yf_Ticker ticker cache) as [r cache'] eqn:H.
  by eapply get_sector_cache_ok.
Qed.

Lemma preserves_risk_to_score ticker field :
  preserves_cache_ok (risk_to_score yf_Ticker ticker field).
Proof.
  apply preserves_bind; [apply preserves_get_esg_score|].
  intros response. apply preserves_lift.
Qed.

Lemma preserves_get_controversies ticker :
  preserves_cache_ok (get_controversies yf_Ticker ticker).
Proof.
  apply preserves_bind; [apply preserves_get_esg_score|].
  intros response. apply preserves_lift.
Qed.

Lemma preserves_enrich_company c :
  preserves_cache_ok (enrich_company yf_Ticker c).
Proof.
  unfold enrich_company.
  repeat (apply preserves_bind;
          [first [apply preserves_lift | apply preserves_risk_to_score
                 | apply preserves_get_controversies | apply preserves_get_sector]
          |intros ?]).
  apply preserves_ret.
Qed.

Lemma enrich_loop_cache_ok cs cache :
  cache_ok cache → cache_ok (enrich_loop yf_Ticker cs cache).2.
Proof.
  revert cache. induction cs as [|c cs IH]; intros cache Hok; [done|].
  cbn [enrich_loop]. pose proof (preserves_enrich_company c cache Hok) as Hc.
  destruct (enrich_company yf_Ticker c cache) as [[c'|e] cache1]; [|done].
  specialize (IH cache1 Hc).
  by destruct (enrich_loop yf_Ticker cs cache1) as [[rest err] cache2].
Qed.

(** X13: the cache of a fresh repository holds only tickers with a non-empty
    ESG frame, and every getter and the whole enrichment, successful or not,
    keep it so. *)
Theorem cache_invariant_is_kept :
  cache_ok ∅ ∧
  ∀ cache, cache_ok cache →
    (∀ ticker,
       cache_ok (get_esg_score yf_Ticker ticker cache).2 ∧
       cache_ok (get_sector yf_Ticker ticker cache).2 ∧
       cache_ok (get_controversies yf_Ticker ticker cache).2 ∧
       cache_ok (get_e_score yf_Ticker ticker cache).2 ∧
       cache_ok (get_s_score yf_Ticker ticker cache).2 ∧
       cache_ok (get_g_score yf_Ticker ticker cache).2) ∧
    ∀ initial, cache_ok (cache_after (enrich_companies_data yf_Ticker initial cache)).
Proof.
  split; [apply cache_ok_empty|]. intros cache Hok. split.
  - intros ticker.
    split; [by apply preserves_get_esg_score|].
    split; [by apply preserves_get_sector|].
    split; [by apply preserves_get_controversies|].
    repeat split; by apply preserves_risk_to_score.
  - intros initial. unfold enrich_companies_data.
    pose proof (enrich_loop_cache_ok initial cache Hok) as Hl.
    destruct (enrich_loop yf_Ticker initial cache) as [[cs [e|]] cache'];
      exact Hl.
Qed.

Lemma enrich_company_inv c cache c' cache' :
  enrich_company yf_Ticker c cache = (Ok c', cache') →
  ∃ t e s g k sec c1 c2 c3 c4,
    c !! "ticker" = Some t ∧
    get_e_score yf_Ticker t cache = (Ok e, c1) ∧
    get_s_score yf_Ticker t c1 = (Ok s, c2) ∧
    get_g_score yf_Ticker t c2 = (Ok g, c3) ∧
    get_controversies yf_Ticker t c3 = (Ok k, c4) ∧
    get_sector yf_Ticker t c4 = (Ok sec, cache') ∧
    c' = <["e_score" := e]> (<["s_score" := s]> (<["g_score" := g]>
           (<["controversies" := k]> (<["sector" := sec]> c)))).
Proof.
  unfold enrich_company, mbind, Repo_bind, repo_bind, repo_lift, getitem.
  destruct (c !! "ticker") as [t|]; [|done].
  destruct (get_e_score yf_Ticker t cache) as [[e|] c1] eqn:He; [|done].
  destruct (get_s_score yf_Ticker t c1) as [[s|] c2] eqn:Hs; [|done].
  destruct (get_g_score yf_Ticker t c2) as [[g|] c3] eqn:Hg; [|done].
  destruct (get_controversies yf_Ticker t c3) as [[k|] c4] eqn:Hk; [|done].
  destruct (get_sector yf_Ticker t c4) as [[sec|] c5] eqn:Hsec; [|done].
  intros [= <- <-]. by exists t, e, s, g, k, sec, c1, c2, c3, c4.
Qed.

(** What a successful enrichment of one company leaves in its record. *)
Lemma enrich_company_shape c cache c' cache' :
  enrich_company yf_Ticker c cache = (Ok c', cache') →
  is_Some (c !! "ticker") ∧
  (∀ key, key ∉ enriched_keys → c' !! key = c !! key) ∧
  (∃ e s g, c' !! "e_score" = Some (VNum e) ∧ c' !! "s_score" = Some (VNum s) ∧
            c' !! "g_score" = Some (VNum g)) ∧
  (∃ k, c' !! "controversies" = Some k ∧ truthy k = true) ∧
  is_Some (c' !! "sector").
Proof.
  intros (t & e & s & g & k & sec & c1 & c2 & c3 & c4 & Ht & He & Hs & Hg & Hk
          & Hsec & ->)%enrich_company_inv.
  split; [by eexists|]. split.
  { intros key Hkey. unfold enriched_keys in Hkey.
    rewrite !lookup_insert_ne; [done|intros <-; apply Hkey; set_solver..]. }
  apply risk_to_score_never_max in He as (qe & -> & _).
  apply risk_to_score_never_max in Hs as (qs & -> & _).
  apply risk_to_score_never_max in Hg as (qg & -> & _).
  split; [exists qe, qs, qg; repeat split; by simplify_map_eq|]. split.
  - exists k. split; [by simplify_map_eq|].
    revert Hk. unfold get_controversies, mbind, Repo_bind, repo_bind, repo_lift.
    destruct (get_esg_score yf_Ticker t c3) as [[response|] c5]; [|done].
    destruct (_parse_response _ _ _) as [x|] eqn:Hp; [|done]. intros [= <- _].
    by apply parse_response_cases in Hp as [->|Hx].
  - exists sec. by simplify_map_eq.
Qed.

Lemma enrich_loop_success cs cache cs' cache' :
  enrich_loop yf_Ticker cs cache = (cs', None, cache') →
  Forall2 (λ c c', ∃ cache0 cache1,
             enrich_company yf_Ticker c cache0 = (Ok c', cache1)) cs cs'.
Proof.
  revert cache cs'. induction cs as [|c cs IH]; intros cache cs'; cbn [enrich_loop].
  { intros [= <- _]. constructor. }
  destruct (enrich_company yf_Ticker c cache) as [[c'|e] cache1] eqn:Hc; [|done].
  destruct (enrich_loop yf_Ticker cs cache1) as [[rest err] cache2] eqn:Hl.
  intros [= <- -> <-]. constructor; [eauto|]. by eapply IH.
Qed.

(** X14: when the enrichment returns a list, it is the caller's own list, now
    updated; it has one record per candidate, in the same order; each record
    had a ticker, keeps every entry other than the five written (its ticker
    and name among them), and now holds numeric [e_score], [s_score] and
    [g_score], a controversy level that is not 0, and a sector entry. *)
Theorem successful_enrichment_shape initial cache cs :
  returned (enrich_companies_data yf_Ticker initial cache) = Ok (Some cs) →
  initial_companies_data (enrich_companies_data yf_Ticker initial cache) = cs ∧
  printed (enrich_companies_data yf_Ticker initial cache) = [] ∧
  length cs = length initial ∧
  Forall2 (λ (c c' : Company),
    is_Some (c !! "ticker") ∧
    (∀ key, key ∉ enriched_keys → c' !! key = c !! key) ∧
    (∃ e s g, c' !! "e_score" = Some (VNum e) ∧ c' !! "s_score" = Some (VNum s) ∧
              c' !! "g_score" = Some (VNum g)) ∧
    (∃ k, c' !! "controversies" = Some k ∧ truthy k = true) ∧
    is_Some (c' !! "sector")) initial cs.
Proof.
  unfold enrich_companies_data.
  destruct (enrich_loop yf_Ticker initial cache) as [[cs' [e|]] cache'] eqn:Hl;
    [done|].
  cbn. intros [= ->]. apply enrich_loop_success in Hl.
  split; [done|]. split; [done|].
  split; [symmetry; by eapply Forall2_length|].
  eapply Forall2_impl; [exact Hl|].
  intros c c' (cache0 & cache1 & Hc). by eapply enrich_company_shape.
Qed.

End EnricherMore.

Section EnrichThenScore.
Variable yf_Ticker : string → Ticker.
Variables USER_E_WEIGHT USER_S_WEIGHT USER_G_WEIGHT : string.

(** X15: an enriched company can always be scored.  With numeric weights in
    the survey answers, [get_preference_score] on a record the enrichment
    produced returns the weighted sum of its three sub-scores and raises
    nothing. *)
Theorem enriched_company_can_be_scored
    (c c' : Company) cache cache' (survey_answers : gmap string value)
    (w_e w_s w_g : Qc) :
  enrich_company yf_Ticker c cache = (Ok c', cache') →
  survey_answers !! USER_E_WEIGHT = Some (VNum w_e) →
  survey_answers !! USER_S_WEIGHT = Some (VNum w_s) →
  survey_answers !! USER_G_WEIGHT = Some (VNum w_g) →
  ∃ e s g,
    c' !! "e_score" = Some (VNum e) ∧ c' !! "s_score" = Some (VNum s) ∧
    c' !! "g_score" = Some (VNum g) ∧
    get_preference_score USER_E_WEIGHT USER_S_WEIGHT USER_G_WEIGHT c'
      survey_answers
    = Ok (VNum (w_e * e + w_s * s + w_g * g)%Qc).
Proof.
  intros (_ & _ & (e & s & g & He & Hs & Hg) & _)%enrich_company_shape Hwe Hws Hwg.
  exists e, s, g. split; [done|]. split; [done|]. split; [done|].
  unfold get_preference_score.
  rewrite (getitem_Some _ _ _ Hwe), (getitem_Some _ _ _ Hws),
    (getitem_Some _ _ _ Hwg), (getitem_Some _ _ _ He),
    (getitem_Some _ _ _ Hs), (getitem_Some _ _ _ Hg).
  cbn. apply py_sum_three.
Qed.

End EnrichThenScore.


Lemma controversies_are_never_zero_witness :
  (get_controversies Sample.no_controversy (VStr "AAPL") ∅).1
  = Ok (VNum (qc 10 1)).
Proof.
  rewrite (proj2 (controversies_are_never_zero Sample.no_controversy
                    (VStr "AAPL") ∅) Sample.no_controversy_frame
             (get_esg_score Sample.no_controversy (VStr "AAPL") ∅).2
             ltac:(by_vm) ltac:(by_vm)).
  reflexivity.
Defined.

Lemma only_tickers_with_data_are_cached_witness :
  (get_esg_score Sample.no_esg_data (VStr "AAPL") ∅).2 = ∅.
Proof.
  apply (proj2 (only_tickers_with_data_are_cached Sample.no_esg_data
                  (VStr "AAPL") ∅ (Ok None)
                  (get_esg_score Sample.no_esg_data (VStr "AAPL") ∅).2
                  ltac:(by_vm))).
  by left.
Defined.

Lemma cached_ticker_is_served_from_cache_witness :
  ∃ s stock,
    VStr "GOOD" = VStr s ∧
    (get_esg_score Sample.only_good (VStr "GOOD") ∅).2 !! s = Some stock ∧
    sustainability stock = Some Sample.good_frame.
Proof.
  destruct (cached_ticker_is_served_from_cache Sample.only_good (VStr "GOOD") ∅
              Sample.good_frame
              (get_esg_score Sample.only_good (VStr "GOOD") ∅).2 ltac:(by_vm))
    as (s & stock & H1 & H2 & H3 & _).
  exists s, stock. split; [exact H1|]. split; [exact H2|exact H3].
Defined.

Lemma cache_invariant_is_kept_witness :
  cache_ok (cache_after (enrich_companies_data Sample.only_good
                           [Sample.company "GOOD"; Sample.company "BAD"] ∅)).
Proof.
  apply (proj2 (cache_invariant_is_kept Sample.only_good) ∅ cache_ok_empty).
Defined.

Lemma successful_enrichment_shape_witness :
  length (initial_companies_data
            (enrich_companies_data Sample.only_good [Sample.company "GOOD"] ∅))
  = length [Sample.company "GOOD"].
Proof.
  destruct (successful_enrichment_shape Sample.only_good
              [Sample.company "GOOD"] ∅
              (initial_companies_data
                 (enrich_companies_data Sample.only_good
                    [Sample.company "GOOD"] ∅)) ltac:(by_vm))
    as (_ & _ & Hlen & _).
  exact Hlen.
Defined.

Lemma enriched_company_can_be_scored_witness :
  ∃ c' e s g,
    c' !! "e_score" = Some (VNum e) ∧ c' !! "s_score" = Some (VNum s) ∧
    c' !! "g_score" = Some (VNum g) ∧
    get_preference_score "e_weight" "s_weight" "g_weight" c' Sample.weights
    = Ok (VNum (qc 3 1 * e + qc 1 1 * s + qc 5 1 * g)%Qc).
Proof.
  pose (run := enrich_company Sample.only_good (Sample.company "GOOD") ∅).
  assert (∃ c', run = (Ok c', run.2)) as [c' Hrun].
  { exists (hd ∅ (enrich_loop Sample.only_good [Sample.company "GOOD"] ∅).1.1).
    unfold run. by_vm. }
  exists c'.
  apply (enriched_company_can_be_scored Sample.only_good
           "e_weight" "s_weight" "g_weight" (Sample.company "GOOD") c' ∅ run.2
           Sample.weights (qc 3 1) (qc 1 1) (qc 5 1) Hrun);
    by_vm.
Defined.

(** ** RiskMapper *)

Lemma lower_ascii_idem c : lower_ascii (lower_ascii c) = lower_ascii c.
Proof. by destruct c as [[] [] [] [] [] [] [] []]. Qed.

Lemma lower_idem s : lower (lower s) = lower s.
Proof. induction s as [|c s IH]; [done|]. cbn. by rewrite lower_ascii_idem, IH. Qed.

(** X16: [map_risk_level] looks at the spelling only up to the case of the
    letters.  It returns 0.1, 0.15 or 0.2 exactly when the lower-cased
    argument is low, moderate or high, so two spellings that agree once
    lower-cased get the same ceiling; the ceilings are positive and increase
    with the level; any other string raises the [ValueError] that quotes the
    argument as it was given. *)
Theorem map_risk_level_ignores_case (s : string) :
  (∀ q, map_risk_level (VStr s) = Ok q ↔
        (lower s = "low" ∧ q = qc 1 10) ∨ (lower s = "moderate" ∧ q = qc 15 100) ∨
        (lower s = "high" ∧ q = qc 2 10)) ∧
  (∀ s' q, lower s' = lower s →
           map_risk_level (VStr s) = Ok q → map_risk_level (VStr s') = Ok q) ∧
  (∀ q, map_risk_level (VStr s) = Ok q →
        map_risk_level (VStr (lower s)) = Ok q ∧ (0 < q)%Qc ∧ (q ≤ qc 2 10)%Qc) ∧
  (lower s ≠ "low" → lower s ≠ "moderate" → lower s ≠ "high" →
   map_risk_level (VStr s)
   = Raise (ValueError ("Invalid risk level: '" +:+ s
              +:+ "'. Must be one of ['low', 'moderate', 'high']."))) ∧
  (qc 1 10 < qc 15 100)%Qc ∧ (qc 15 100 < qc 2 10)%Qc.
Proof.
  assert (Hchar : ∀ q, map_risk_level (VStr s) = Ok q ↔
        (lower s = "low" ∧ q = qc 1 10) ∨ (lower s = "moderate" ∧ q = qc 15 100) ∨
        (lower s = "high" ∧ q = qc 2 10)).
  { intros q. unfold map_risk_level, risk_mapping. cbn [assoc].
    destruct (String.eqb_spec (lower s) "low") as [->|Hl].
    { split; [intros [= <-]; by left|]. by intros [[_ ->]|[[? _]|[? _]]]. }
    destruct (String.eqb_spec (lower s) "moderate") as [->|Hm].
    { split; [intros [= <-]; right; by left|]. by intros [[? _]|[[_ ->]|[? _]]]. }
    destruct (String.eqb_spec (lower s) "high") as [->|Hh].
    { split; [intros [= <-]; right; by right|]. by intros [[? _]|[[? _]|[_ ->]]]. }
    split; [done|]. by intros [[? _]|[[? _]|[? _]]]. }
  split; [exact Hchar|]. split; [|split; [|split]].
  - intros s' q Heq. unfold map_risk_level. rewrite Heq.
    by destruct (assoc (lower s) risk_mapping).
  - intros q Hq. split.
    + revert Hq. unfold map_risk_level. rewrite lower_idem.
      by destruct (assoc (lower s) risk_mapping).
    + apply Hchar in Hq as [[_ ->]|[[_ ->]|[_ ->]]]; split; by_evaluation.
  - intros Hl Hm Hh. unfold map_risk_level, risk_mapping. cbn [assoc].
    destruct (String.eqb_spec (lower s) "low"); [done|].
    destruct (String.eqb_spec (lower s) "moderate"); [done|].
    by destruct (String.eqb_spec (lower s) "high").
  - split; by_evaluation.
Qed.

(** The three options of the profile page are accepted. *)
Lemma map_risk_level_ignores_case_witness :
  map_risk_level (VStr "Low") = Ok (qc 1 10) ∧
  map_risk_level (VStr "Moderate") = Ok (qc 15 100) ∧
  map_risk_level (VStr "High") = Ok (qc 2 10) ∧
  map_risk_level (VStr "medium")
  = Raise (ValueError
      "Invalid risk level: 'medium'. Must be one of ['low', 'moderate', 'high'].").
Proof.
  split; [|split; [|split]].
  - apply (proj1 (map_risk_level_ignores_case "Low")). left. by split.
  - apply (proj1 (map_risk_level_ignores_case "Moderate")). right. left. by split.
  - apply (proj1 (map_risk_level_ignores_case "High")). right. right. by split.
  - apply (proj1 (proj2 (proj2 (proj2 (map_risk_level_ignores_case "medium")))));
      discriminate.
Defined.

(** ** The proportions pie chart *)

Lemma foldl_Qcplus (a : Qc) (l : list Qc) :
  foldl Qcplus a l = (a + foldl Qcplus 0 l)%Qc.
Proof.
  revert a. induction l as [|x l IH]; intros a; cbn.
  - by rewrite Qcplus_0_r.
  - rewrite (IH (a + x)%Qc), (IH (0 + x)%Qc). ring.
Qed.

Lemma total_sum_cons v l : total_sum (v :: l) = (Qcabs v + total_sum l)%Qc.
Proof. unfold total_sum. cbn. rewrite foldl_Qcplus. ring. Qed.

Lemma total_sum_nonneg l : (0 ≤ total_sum l)%Qc.
Proof.
  induction l as [|v l IH]; [apply Qcle_refl|]. rewrite total_sum_cons.
  replace 0%Qc with (0 + 0)%Qc by ring.
  apply Qcplus_le_compat; [apply Qcabs_nonneg|done].
Qed.


Lemma total_sum_zero l : total_sum l = 0%Qc ↔ Forall (λ v, v = 0%Qc) l.
Proof.
  induction l as [|x l IH]; [by split|]. rewrite total_sum_cons. split.
  - intros Hz.
    assert (Qcabs x = 0 ∧ total_sum l = 0)%Qc as [Hx Hl].
    { pose proof (Qcabs_nonneg x) as H1. pose proof (total_sum_nonneg l) as H2.
      split; apply Qcle_antisym; try done.
      - rewrite <- Hz. rewrite <- (Qcplus_0_r (Qcabs x)) at 1.
        by apply Qcplus_le_compat; [apply Qcle_refl|].
      - rewrite <- Hz. rewrite <- (Qcplus_0_l (total_sum l)) at 1.
        by apply Qcplus_le_compat; [|apply Qcle_refl]. }
    constructor; [by apply Qcabs_null|by apply IH].
  - intros [-> Hl]%Forall_cons. apply IH in Hl. rewrite Hl. by_vm.
Qed.



(** X18: the chart divides by zero exactly when every company has a name, there
    is at least one proportion and all proportions are 0. *)
Theorem pie_chart_division_by_zero (portfolio : RecommendedPortfolio) :
  pie_chart_rows portfolio = ZeroDivisionError ↔
  Forall (λ c : Company, is_Some (c !! "name")) (companies portfolio) ∧
  proportions portfolio ≠ [] ∧
  Forall (λ v, v = 0%Qc) (proportions portfolio).
Proof.
  unfold pie_chart_rows. split.
  - destruct (mapM _ (companies portfolio)) as [names|] eqn:Hn; [|done].
    apply mapM_res_Forall2 in Hn.
    destruct (proportions portfolio) as [|v0 l] eqn:Hp; [done|].
    destruct (decide (total_sum (v0 :: l) = 0%Qc)) as [Ht|]; [|done].
    intros _. split; [|split; [done|by apply total_sum_zero]].
    apply Forall_forall. intros c Hin.
    apply list_elem_of_lookup in Hin as [i Hi].
    destruct (Forall2_lookup_l _ _ _ i c Hn Hi) as (name & _ & Hname).
    unfold getitem in Hname. destruct (c !! "name"); [by eexists|done].
  - intros (Hnames & Hne & Hzero).
    assert (∃ names, mapM (λ c : Company, getitem c "name") (companies portfolio)
                     = Ok names) as [names ->].
    { induction Hnames as [|c l [name Hc] _ [names IH]]; [by exists []|].
      exists (name :: names). cbn [mapM]. rewrite (getitem_Some _ _ _ Hc).
      res_step. by rewrite IH. }
    destruct (proportions portfolio) as [|v0 l] eqn:Hp; [done|].
    apply total_sum_zero in Hzero. by rewrite decide_True.
Qed.


Lemma pie_chart_division_by_zero_witness :
  pie_chart_rows Sample.flat_portfolio = ZeroDivisionError.
Proof.
  apply (proj2 (pie_chart_division_by_zero Sample.flat_portfolio)).
  split; [|split].
  - repeat constructor; by eexists.
  - discriminate.
  - by repeat constructor.
Defined.

(** ** The Newton analytics engine *)

Section NewtonFacts.
Import NewtonAnalyticsEngine.
Variable requests_get : string → Params → res Response.

Lemma join_tickers_inv tickers str :
  join_tickers tickers = Ok str →
  ∃ strs, tickers = VStr <$> strs ∧ str = String.concat "," strs.
Proof.
  unfold join_tickers.
  destruct (mapM _ tickers) as [strs|] eqn:Hm; [|done]. intros [= <-].
  exists strs. split; [|done].
  apply mapM_res_Forall2 in Hm.
  induction Hm as [|t s ts ss Ht _ IH]; [done|].
  cbn [fmap list_fmap]. rewrite IH. by destruct t as [|s'|]; try done; injection Ht as ->.
Qed.

Lemma join_tickers_strings (strs : list string) :
  join_tickers (VStr <$> strs) = Ok (String.concat "," strs).
Proof.
  unfold join_tickers.
  assert (mapM (λ t, match t with VStr s => Ok s | _ => Raise TypeError end)
            (VStr <$> strs) = Ok strs) as ->; [|done].
  induction strs as [|s strs IH]; [done|].
  cbn [fmap list_fmap mapM]. res_step. by rewrite IH.
Qed.

Lemma join_tickers_non_string tickers t :
  t ∈ tickers → (∀ s, t ≠ VStr s) → join_tickers tickers = Raise TypeError.
Proof.
  intros Hin Ht. unfold join_tickers.
  assert (mapM (λ t, match t with VStr s => Ok s | _ => Raise TypeError end) tickers
          = Raise TypeError) as ->; [|done].
  induction tickers as [|t0 ts IH]; [by apply elem_of_nil in Hin|].
  cbn [mapM]. apply elem_of_cons in Hin as [<-|Hin].
  - destruct t as [|s|q]; [done| |done]. by destruct (Ht s).
  - destruct t0 as [|s|q]; [done| |done]. res_step. by rewrite IH.
Qed.

(** X19: an answer of [get_portfolio_data] always is the decoded body of a
    response whose status is not an error status (400 to 599), to the request
    that names the tickers, all strings, joined by commas in their order,
    with interval [1mo] and 12 observations.  A ticker that is not a string
    raises [TypeError] whatever the server would say, and an error status
    raises [HTTPError] whatever the body is. *)
Theorem newton_answer_comes_from_a_good_response tickers :
  (∀ result,
     get_portfolio_data requests_get tickers = Ok result →
     ∃ strs response,
       tickers = VStr <$> strs ∧
       requests_get BASE_URL (mkParams (String.concat "," strs) "1mo" 12)
       = Ok response ∧
       ¬ (400 ≤ status_code response < 600)%Z ∧
       json response = Ok result) ∧
  (∀ t, t ∈ tickers → (∀ s, t ≠ VStr s) →
     get_portfolio_data requests_get tickers = Raise TypeError) ∧
  (∀ strs response,
     tickers = VStr <$> strs →
     requests_get BASE_URL (mkParams (String.concat "," strs) "1mo" 12)
     = Ok response →
     (400 ≤ status_code response < 600)%Z →
     get_portfolio_data requests_get tickers = Raise HTTPError).
Proof.
  split; [|split].
  - intros result. unfold get_portfolio_data.
    destruct (join_tickers tickers) as [str|] eqn:Hj; [|done]. res_step.
    apply join_tickers_inv in Hj as (strs & -> & ->).
    destruct (requests_get _ _) as [response|] eqn:Hreq; [|done]. res_step.
    unfold raise_for_status. case_decide; [done|]. res_step. intros Hjson.
    by exists strs, response.
  - intros t Hin Ht. unfold get_portfolio_data.
    by rewrite (join_tickers_non_string _ _ Hin Ht).
  - intros strs response -> Hreq Hstatus. unfold get_portfolio_data.
    rewrite join_tickers_strings. res_step. rewrite Hreq. res_step. unfold raise_for_status.
    by rewrite decide_True.
Qed.

End NewtonFacts.

Lemma comma_free_split (s s' r r' : string) :
  comma_free s = true → comma_free s' = true →
  s +:+ String (Ascii.ascii_of_nat 44) r = s' +:+ String (Ascii.ascii_of_nat 44) r' →
  s = s' ∧ r = r'.
Proof.
  revert s'. induction s as [|c s IH]; intros [|c' s']; cbn.
  - by intros _ _ [= ->].
  - intros _ [Hc _]%andb_true_iff [= <- _].
    by rewrite Ascii.eqb_refl in Hc.
  - intros [Hc _]%andb_true_iff _ [= -> _].
    by rewrite Ascii.eqb_refl in Hc.
  - intros [_ Hs]%andb_true_iff [_ Hs']%andb_true_iff [= -> Heq].
    destruct (IH _ Hs Hs' Heq) as [-> ->]. done.
Qed.

Lemma comma_free_whole (s s' r' : string) :
  comma_free s = true →
  s ≠ s' +:+ String (Ascii.ascii_of_nat 44) r'.
Proof.
  revert s'. induction s as [|c s IH]; intros [|c' s']; cbn; try done.
  - intros [Hc _]%andb_true_iff [= -> _]. by rewrite Ascii.eqb_refl in Hc.
  - intros [_ Hs]%andb_true_iff [= _ Heq]. by eapply IH.
Qed.

(** X20: the request string tells the windows apart.  Two ticker sequences of
    the same length, whose tickers contain no comma, are joined to the same
    string only when they are the same sequence. *)
Theorem request_string_determines_the_window (strs strs' : list string) :
  length strs = length strs' →
  Forall (λ s, comma_free s = true) strs →
  Forall (λ s, comma_free s = true) strs' →
  NewtonAnalyticsEngine.join_tickers (VStr <$> strs)
  = NewtonAnalyticsEngine.join_tickers (VStr <$> strs') →
  strs = strs'.
Proof.
  intros Hlen Hfree Hfree' Hjoin.
  rewrite !join_tickers_strings in Hjoin. injection Hjoin as Hjoin.
  revert strs' Hlen Hfree' Hjoin.
  induction Hfree as [|s l Hs Hl IH]; intros [|s' l'] Hlen Hfree' Hjoin;
    try done.
  apply Forall_cons in Hfree' as [Hs' Hl'].
  destruct l as [|t l], l' as [|t' l']; [|discriminate Hlen..|].
  - cbn in Hjoin. congruence.
  - change (String.concat "," (s :: t :: l))
      with (s +:+ "," +:+ String.concat "," (t :: l)) in Hjoin.
    change (String.concat "," (s' :: t' :: l'))
      with (s' +:+ "," +:+ String.concat "," (t' :: l')) in Hjoin.
    destruct (comma_free_split s s' (String.concat "," (t :: l))
                (String.concat "," (t' :: l')) Hs Hs' Hjoin) as [-> Hrest].
    f_equal. apply IH; [cbn in Hlen |- *; lia|done..].
Qed.

Lemma newton_answer_comes_from_a_good_response_witness :
  NewtonAnalyticsEngine.get_portfolio_data Sample.web [VStr "B"; VStr "C"]
  = Raise HTTPError ∧
  NewtonAnalyticsEngine.get_portfolio_data Sample.web [VStr "A"; VNone]
  = Raise TypeError.
Proof.
  split.
  - apply (proj2 (proj2 (newton_answer_comes_from_a_good_response Sample.web
                           [VStr "B"; VStr "C"])) ["B"; "C"]
             (NewtonAnalyticsEngine.mkResponse 503 (Raise (ValueError "no JSON"))));
      [reflexivity|by_vm|cbn; lia].
  - apply (proj1 (proj2 (newton_answer_comes_from_a_good_response Sample.web
                           [VStr "A"; VNone])) VNone);
      [by right; left|discriminate].
Defined.

Lemma request_string_determines_the_window_witness :
  NewtonAnalyticsEngine.join_tickers [VStr "A"; VStr "B"] = Ok "A,B" ∧
  ["A"; "B"] = ["A"; "B"].
Proof.
  split; [reflexivity|].
  apply (request_string_determines_the_window ["A"; "B"] ["A"; "B"]);
    [reflexivity|by repeat constructor..|reflexivity].
Defined.

(** ** The investment universe and the ranking *)

Section UniverseFacts.
Variable screener_response
  : list string → count → res (gmap string (list (gmap string value))).

Lemma universe_inv sectors threshold initial :
  get_investment_universe screener_response sectors threshold = Ok initial →
  ∃ r quotes,
    screener_response sectors threshold = Ok r ∧ r !! "quotes" = Some quotes ∧
    Forall2 (λ (quote : gmap string value) (c : Company),
      ∃ symbol name,
        quote !! "symbol" = Some symbol ∧ quote !! "shortName" = Some name ∧
        c = {[ "ticker" := symbol; "name" := name ]}) quotes initial.
Proof.
  unfold get_investment_universe.
  destruct (screener_response sectors threshold) as [r|] eqn:Hr; [|done].
  res_step.
  destruct (r !! "quotes") as [quotes|] eqn:Hq;
    [rewrite (getitem_Some _ _ _ Hq)|by rewrite (getitem_None _ _ Hq)].
  res_step.
  intros Hm%mapM_res_Forall2. exists r, quotes. split; [done|]. split; [done|].
  eapply Forall2_impl; [exact Hm|]. intros quote c. cbn. unfold getitem.
  destruct (quote !! "symbol") as [symbol|]; [|done]. res_step.
  destruct (quote !! "shortName") as [name|]; [|done]. res_step.
  intros [= <-]. by exists symbol, name.
Qed.

(** X21: the universe has one record per quote of the screener's answer, in
    the same order, and each record holds exactly two entries: the quote's
    symbol as ["ticker"] and its short name as ["name"]. *)
Theorem universe_records_are_ticker_and_name sectors threshold initial :
  get_investment_universe screener_response sectors threshold = Ok initial →
  ∃ r quotes,
    screener_response sectors threshold = Ok r ∧ r !! "quotes" = Some quotes ∧
    length initial = length quotes ∧
    Forall2 (λ (quote : gmap string value) (c : Company),
      c !! "ticker" = quote !! "symbol" ∧ c !! "name" = quote !! "shortName" ∧
      is_Some (c !! "ticker") ∧ is_Some (c !! "name") ∧
      dom c = ({[ "ticker"; "name" ]} : gset string)) quotes initial.
Proof.
  intros (r & quotes & Hr & Hq & Hall)%universe_inv.
  exists r, quotes. split; [done|]. split; [done|].
  split; [symmetry; by eapply Forall2_length|].
  eapply Forall2_impl; [exact Hall|].
  intros quote c (symbol & name & -> & -> & ->).
  split; [by simplify_map_eq|]. split; [by simplify_map_eq|].
  split; [by simplify_map_eq|]. split; [by simplify_map_eq|].
  by rewrite dom_insert_L, dom_singleton_L.
Qed.

End UniverseFacts.

Section RankingFacts.
Variables USER_E_WEIGHT USER_S_WEIGHT USER_G_WEIGHT : string.

Lemma get_preference_score_numeric (c survey_answers : gmap string value) v :
  get_preference_score USER_E_WEIGHT USER_S_WEIGHT USER_G_WEIGHT c survey_answers
  = Ok v → ∃ q, v = VNum q.
Proof.
  unfold get_preference_score.
  destruct (getitem survey_answers USER_E_WEIGHT) as [w_e|]; [|done].
  destruct (getitem survey_answers USER_S_WEIGHT) as [w_s|]; [|done].
  destruct (getitem survey_answers USER_G_WEIGHT) as [w_g|]; [|done].
  destruct (getitem c "e_score") as [e|]; [|done].
  destruct (getitem c "s_score") as [s|]; [|done].
  destruct (getitem c "g_score") as [g|]; [|done].
  res_step.
  destruct w_e as [| |w_e], e as [| |e]; try done.
  destruct w_s as [| |w_s], s as [| |s]; try done.
  destruct w_g as [| |w_g], g as [| |g]; try done.
  cbn [mul num_op]. res_step. rewrite py_sum_three. intros [= <-]. by eexists.
Qed.

(** Numeric keys decorated as Python values. *)
Lemma insert_by_key_numeric {A} (k : Qc) (x : A) (l : list (Qc * A)) :
  insert_by_key (VNum k) x (prod_map VNum id <$> l)
  = Ok (prod_map VNum id <$> insert_desc k x l).
Proof.
  induction l as [|[k' y] l IH]; [done|].
  cbn [fmap list_fmap prod_map fst snd insert_by_key insert_desc py_lt id].
  res_step. unfold ltb. destruct (leb k' k) eqn:Hk; unfold leb in Hk; rewrite Hk.
  - done.
  - cbn [negb]. rewrite IH. done.
Qed.

Lemma sort_by_key_numeric {A} (l : list (Qc * A)) :
  sort_by_key (prod_map VNum id <$> l) = Ok (prod_map VNum id <$> sort_desc l).
Proof.
  induction l as [|[k x] l IH]; [done|].
  cbn [fmap list_fmap prod_map fst snd sort_by_key id]. rewrite IH. res_step.
  rewrite sort_desc_cons. apply insert_by_key_numeric.
Qed.

Lemma score_of_insert (c : Company) q : score_of (<["score" := VNum q]> c) = q.
Proof. unfold score_of. by rewrite lookup_insert_eq. Qed.

(** The two steps of the ranking when they succeed. *)
Lemma rank_companies_inv cs (survey_answers : gmap string value) ranked :
  rank_companies USER_E_WEIGHT USER_S_WEIGHT USER_G_WEIGHT (Some cs)
    survey_answers = Ok ranked →
  ∃ scored,
    Forall2 (λ (c c' : Company), ∃ q,
      get_preference_score USER_E_WEIGHT USER_S_WEIGHT USER_G_WEIGHT c
        survey_answers = Ok (VNum q) ∧
      c' = <["score" := VNum q]> c) cs scored ∧
    ranked = (sort_desc ((λ c, (score_of c, c)) <$> scored)).*2.
Proof.
  unfold rank_companies.
  destruct (mapM _ cs) as [scored|] eqn:Hscored; [|done]. res_step.
  apply mapM_res_Forall2 in Hscored.
  assert (Forall2 (λ (c c' : Company), ∃ q,
            get_preference_score USER_E_WEIGHT USER_S_WEIGHT USER_G_WEIGHT c
              survey_answers = Ok (VNum q) ∧
            c' = <["score" := VNum q]> c) cs scored) as Hall.
  { eapply Forall2_impl; [exact Hscored|]. intros c c'. cbn.
    destruct (get_preference_score _ _ _ c survey_answers) as [v|] eqn:Hv;
      [|done].
    destruct (get_preference_score_numeric _ _ _ Hv) as [q ->]. res_step.
    intros [= <-]. by exists q. }
  assert (Forall (λ c' : Company, c' !! "score" = Some (VNum (score_of c')))
            scored) as Hkeys.
  { apply Forall_forall. intros c' Hin.
    apply list_elem_of_lookup in Hin as [i Hi].
    destruct (Forall2_lookup_r _ _ _ i c' Hall Hi) as (c & _ & q & _ & ->).
    by rewrite score_of_insert, lookup_insert_eq. }
  assert (mapM (λ c : Company, getitem c "score") scored
          = Ok ((λ c, VNum (score_of c)) <$> scored)) as ->.
  { clear Hall Hscored. induction Hkeys as [|c' l Hc _ IH]; [done|].
    cbn [mapM fmap list_fmap]. rewrite (getitem_Some _ _ _ Hc). res_step.
    by rewrite IH. }
  res_step.
  assert (zip ((λ c, VNum (score_of c)) <$> scored) scored
          = prod_map VNum id <$> ((λ c, (score_of c, c)) <$> scored)) as ->.
  { clear. induction scored as [|c l IH]; [done|]. cbn. by rewrite IH. }
  rewrite sort_by_key_numeric. res_step. intros [= <-].
  exists scored. split; [done|].
  rewrite <- list_fmap_compose. apply list_fmap_ext. by intros i [k x] _.
Qed.

(** X22: the ranking of the portfolio page.  When it succeeds, every company
    got its preference score written under ["score"], and the list handed to
    the selector holds these records ordered by score, highest first, with
    records of equal score in the order the enrichment left them. *)
Theorem ranking_is_sorted_by_score cs (survey_answers : gmap string value) ranked :
  rank_companies USER_E_WEIGHT USER_S_WEIGHT USER_G_WEIGHT (Some cs)
    survey_answers = Ok ranked →
  ∃ scored,
    Forall2 (λ (c c' : Company), ∃ q,
      get_preference_score USER_E_WEIGHT USER_S_WEIGHT USER_G_WEIGHT c
        survey_answers = Ok (VNum q) ∧
      c' = <["score" := VNum q]> c) cs scored ∧
    ranked ≡ₚ scored ∧
    StronglySorted (λ c d, (score_of d ≤ score_of c)%Qc) ranked ∧
    ∀ k, filter (λ c, score_of c = k) ranked
         = filter (λ c, score_of c = k) scored.
Proof.
  intros (scored & Hall & ->)%rank_companies_inv. exists scored.
  assert (Forall (λ kx : Qc * Company, kx.1 = score_of kx.2)
            (sort_desc ((λ c, (score_of c, c)) <$> scored))) as Hdec.
  { apply sort_desc_Forall, Forall_fmap, Forall_forall. by intros. }
  split; [done|]. split; [|split].
  - rewrite sort_desc_perm, <- list_fmap_compose.
    by rewrite <- (list_fmap_id scored) at 2.
  - apply (decorated_sorted score_of); [done|apply sort_desc_sorted].
  - intros k. rewrite (decorated_filter score_of _ _ Hdec), filter_sort_desc.
    rewrite <- (decorated_filter score_of);
      [|apply Forall_fmap, Forall_forall; by intros].
    by rewrite <- list_fmap_compose, list_fmap_id.
Qed.

End RankingFacts.

Lemma mapM_getitem_Ok (key : string) (l : list Company) :
  Forall (λ c : Company, is_Some (c !! key)) l →
  ∃ vs, mapM (λ c : Company, getitem c key) l = Ok vs.
Proof.
  induction 1 as [|c l [v Hc] _ [vs IH]]; [by exists []|].
  exists (v :: vs). cbn [mapM]. rewrite (getitem_Some _ _ _ Hc). res_step.
  by rewrite IH.
Qed.

Section Pipeline.
Variable screener_response
  : list string → count → res (gmap string (list (gmap string value))).
Variable yf_Ticker : string → Ticker.
Variables USER_E_WEIGHT USER_S_WEIGHT USER_G_WEIGHT : string.

(** X23: when the enrichment stops on an exception, the portfolio page goes
    on with the [None] it got back, and the scoring loop raises [TypeError]:
    the failed lookup surfaces as a type error of the page, not as "no
    portfolio found". *)
Theorem failed_enrichment_breaks_ranking
    pre c post cache pre' cache1 e cache2 (survey_answers : gmap string value) :
  enrich_loop yf_Ticker pre cache = (pre', None, cache1) →
  enrich_company yf_Ticker c cache1 = (Raise e, cache2) →
  (enriched_companies ←
     returned (enrich_companies_data yf_Ticker (pre ++ c :: post) cache);
   rank_companies USER_E_WEIGHT USER_S_WEIGHT USER_G_WEIGHT enriched_companies
     survey_answers)
  = Raise TypeError.
Proof.
  intros Hpre Hc. unfold enrich_companies_data.
  by rewrite (enrich_loop_stops _ _ _ post _ _ _ _ _ Hpre Hc).
Qed.

(** X24: through the page's pipeline every record keeps the ticker and the
    name the universe gave it.  After a successful enrichment and ranking
    there is one ranked record per quote, each with its ["ticker"] and
    ["name"], so no window of the selector can fail for a missing ticker;
    and with fewer than the 10 companies the page asks for, the selector
    returns [None] without a single request to the analytics service. *)
Theorem pipeline_keeps_ticker_and_name
    sectors threshold initial cache enriched
    (survey_answers : gmap string value) ranked :
  get_investment_universe screener_response sectors threshold = Ok initial →
  returned (enrich_companies_data yf_Ticker initial cache) = Ok (Some enriched) →
  rank_companies USER_E_WEIGHT USER_S_WEIGHT USER_G_WEIGHT (Some enriched)
    survey_answers = Ok ranked →
  length ranked = length initial ∧
  Forall (λ c : Company, is_Some (c !! "ticker") ∧ is_Some (c !! "name")) ranked ∧
  (∀ i portfolio_size, ∃ tks, window_tickers ranked i portfolio_size = Ok tks) ∧
  (length initial < 10 →
   ∀ get_portfolio_data risk_tolerance,
     get_portfolio_recommendation get_portfolio_data ranked 10 risk_tolerance
     = ([], Ok None)).
Proof.
  intros (r & quotes & _ & _ & Hquotes)%universe_inv Henrich Hrank.
  assert (Forall (λ c : Company, is_Some (c !! "ticker") ∧ is_Some (c !! "name"))
            initial) as Hinitial.
  { apply Forall_forall. intros c Hin.
    apply list_elem_of_lookup in Hin as [i Hi].
    destruct (Forall2_lookup_r _ _ _ i c Hquotes Hi)
      as (quote & _ & symbol & name & _ & _ & ->).
    split; eexists; by simplify_map_eq. }
  assert (Forall2 (λ c c' : Company,
            ∀ key, key ∉ enriched_keys → c' !! key = c !! key) initial enriched)
    as Hkept.
  { revert Henrich. unfold enrich_companies_data.
    destruct (enrich_loop yf_Ticker initial cache) as [[cs' [e|]] cache'] eqn:Hl;
      [done|].
    cbn. intros [= ->]. apply enrich_loop_success in Hl.
    eapply Forall2_impl; [exact Hl|].
    intros c c' (cache0 & cache1 & Hc).
    by apply enrich_company_shape in Hc as (_ & Hc & _). }
  assert (Forall (λ c : Company, is_Some (c !! "ticker") ∧ is_Some (c !! "name"))
            enriched) as Henriched.
  { apply Forall_forall. intros c' Hin.
    apply list_elem_of_lookup in Hin as [i Hi].
    destruct (Forall2_lookup_r _ _ _ i c' Hkept Hi) as (c & Hc & Hkeys).
    rewrite Forall_forall in Hinitial.
    destruct (Hinitial c) as [Ht Hn]; [by eapply list_elem_of_lookup_2|].
    rewrite !Hkeys; [done|by_evaluation..]. }
  apply rank_companies_inv in Hrank as (scored & Hscored & ->).
  assert (Forall (λ c : Company, is_Some (c !! "ticker") ∧ is_Some (c !! "name"))
            scored) as Hsc.
  { apply Forall_forall. intros c' Hin.
    apply list_elem_of_lookup in Hin as [i Hi].
    destruct (Forall2_lookup_r _ _ _ i c' Hscored Hi) as (c & Hc & q & _ & ->).
    rewrite Forall_forall in Henriched.
    destruct (Henriched c) as [Ht Hn]; [by eapply list_elem_of_lookup_2|].
    by rewrite !lookup_insert_ne. }
  assert ((sort_desc ((λ c, (score_of c, c)) <$> scored)).*2 ≡ₚ scored) as Hperm.
  { rewrite sort_desc_perm, <- list_fmap_compose.
    by rewrite <- (list_fmap_id scored) at 2. }
  assert (length (sort_desc ((λ c, (score_of c, c)) <$> scored)).*2
          = length initial) as Hlen.
  { rewrite Hperm. rewrite <- (Forall2_length _ _ _ Hscored).
    rewrite <- (Forall2_length _ _ _ Hkept). done. }
  assert (Forall (λ c : Company, is_Some (c !! "ticker") ∧ is_Some (c !! "name"))
            (sort_desc ((λ c, (score_of c, c)) <$> scored)).*2) as Hranked.
  { by rewrite Hperm. }
  split; [done|]. split; [done|]. split.
  - intros i portfolio_size. unfold window_tickers, slice.
    apply mapM_getitem_Ok, Forall_take, Forall_drop.
    eapply Forall_impl; [exact Hranked|]. by intros c [? _].
  - intros Hsmall get_portfolio_data risk_tolerance.
    unfold get_portfolio_recommendation, range. rewrite Hlen.
    by replace (Z.to_nat (Z.of_nat (length initial) - Z.of_nat 10 + 1)) with 0
      by lia.
Qed.

End Pipeline.

Lemma universe_records_are_ticker_and_name_witness :
  ∃ r quotes,
    Sample.screener ["Technology"] Infinity = Ok r ∧
    r !! "quotes" = Some quotes ∧
    length [ ({[ "ticker" := VStr "GOOD"; "name" := VStr "Good Inc." ]} : Company);
             {[ "ticker" := VStr "FINE"; "name" := VStr "Fine Corp." ]} ]
    = length quotes.
Proof.
  destruct (universe_records_are_ticker_and_name Sample.screener ["Technology"]
              Infinity
              [ {[ "ticker" := VStr "GOOD"; "name" := VStr "Good Inc." ]};
                {[ "ticker" := VStr "FINE"; "name" := VStr "Fine Corp." ]} ]
              ltac:(by_vm))
    as (r & quotes & Hr & Hq & Hlen & _).
  by exists r, quotes.
Defined.

Lemma ranking_is_sorted_by_score_witness :
  ∃ ranked,
    rank_companies "e_weight" "s_weight" "g_weight"
      (Some [ {[ "e_score" := VNum (qc 1 1); "s_score" := VNum (qc 1 1);
                 "g_score" := VNum (qc 1 1) ]};
              {[ "e_score" := VNum (qc 2 1); "s_score" := VNum (qc 2 1);
                 "g_score" := VNum (qc 2 1) ]} ])
      Sample.weights = Ok ranked ∧
    StronglySorted (λ c d, (score_of d ≤ score_of c)%Qc) ranked.
Proof.
  pose (cs := [ ({[ "e_score" := VNum (qc 1 1); "s_score" := VNum (qc 1 1);
                    "g_score" := VNum (qc 1 1) ]} : Company);
                {[ "e_score" := VNum (qc 2 1); "s_score" := VNum (qc 2 1);
                   "g_score" := VNum (qc 2 1) ]} ]).
  pose (ranked := match rank_companies "e_weight" "s_weight" "g_weight" (Some cs)
                          Sample.weights with
                  | Ok l => l
                  | Raise _ => []
                  end).
  assert (rank_companies "e_weight" "s_weight" "g_weight" (Some cs) Sample.weights
          = Ok ranked) as Hrank by by_vm.
  exists ranked. split; [exact Hrank|].
  destruct (ranking_is_sorted_by_score "e_weight" "s_weight" "g_weight" cs
              Sample.weights ranked Hrank) as (scored & _ & _ & Hsorted & _).
  exact Hsorted.
Defined.

Lemma failed_enrichment_breaks_ranking_witness :
  (enriched_companies ←
     returned (enrich_companies_data Sample.only_good
                 [Sample.company "GOOD"; Sample.company "BAD"] ∅);
   rank_companies "e_weight" "s_weight" "g_weight" enriched_companies
     Sample.weights)
  = Raise TypeError.
Proof.
  pose (run := enrich_loop Sample.only_good [Sample.company "GOOD"] ∅).
  pose (stop := enrich_company Sample.only_good (Sample.company "BAD") run.2).
  apply (failed_enrichment_breaks_ranking Sample.only_good
           "e_weight" "s_weight" "g_weight"
           [Sample.company "GOOD"] (Sample.company "BAD") [] ∅
           run.1.1 run.2 AttributeError stop.2 Sample.weights); by_vm.
Defined.

Lemma pipeline_keeps_ticker_and_name_witness :
    get_portfolio_recommendation Sample.engine
      (match rank_companies "e_weight" "s_weight" "g_weight"
               (Some (initial_companies_data
                        (enrich_companies_data Sample.good_and_fine
                           (match get_investment_universe Sample.screener
                                    ["Technology"] Infinity with
                            | Ok l => l
                            | Raise _ => []
                            end) ∅)))
               Sample.weights with
       | Ok l => l
       | Raise _ => []
       end) 10 (qc 15 100)
    = ([], Ok None).
Proof.
  pose (initial := match get_investment_universe Sample.screener
                           ["Technology"] Infinity with
                   | Ok l => l
                   | Raise _ => []
                   end).
  pose (enriched := initial_companies_data
                      (enrich_companies_data Sample.good_and_fine initial ∅)).
  pose (ranked := match rank_companies "e_weight" "s_weight" "g_weight"
                          (Some enriched) Sample.weights with
                  | Ok l => l
                  | Raise _ => []
                  end).
  destruct (pipeline_keeps_ticker_and_name Sample.screener Sample.good_and_fine
              "e_weight" "s_weight" "g_weight" ["Technology"] Infinity initial ∅
              enriched Sample.weights ranked
              ltac:(by_vm) ltac:(by_vm) ltac:(by_vm)) as (_ & _ & _ & Hsmall).
  apply Hsmall. by_evaluation.
Defined.
